(** * hw_generator: the allocation engine of [hw.py]

    A shallow embedding of [assign_problems], [slice_pop] and
    [make_group_tables] from [src/hw_generator/hw.py], and the properties
    the specification states about them.

    Python lists are mutable objects that are passed by reference, and two
    of the functions mutate their arguments or fresh copies of them
    ([shuffle(p)], [multiplied_problems += p], [del l[start:end]]).  The
    embedding therefore runs in a small state-and-exception monad over a
    store of list objects: a reference is an index into the store, every
    list operation of the source is one primitive of the monad, and the
    random number generator is a counter of the shuffles drawn so far. *)

From Stdlib Require Import ZArith List Permutation Lia.
From stdpp Require Import base numbers list strings.

Open Scope Z_scope.
Open Scope nat_scope.

(** ** Exceptions and results *)

(** The exceptions the modelled code can raise: [ZeroDivisionError] from the
    division in [assign_problems], [IndexError] from a list subscript and
    [KeyError] from a dict subscript in [make_group_tables]. *)
Inductive exn : Set :=
| ZeroDivisionError
| IndexError
| KeyError.

Inductive result (A : Type) : Type :=
| Ok (a : A)
| Raise (e : exn).

Arguments Ok {A} a.
Arguments Raise {A} e.

(** ** Python slices *)

(** [l[start:stop]] with step 1.  A negative bound counts from the end, and
    every bound is clamped to [0 .. len(l)]; [None] is the default bound. *)
Definition norm_index (len : Z) (i : Z) : Z :=
  if (i <? 0)%Z then Z.max (i + len) 0 else Z.min i len.

Definition slice_bounds (len : nat) (start stop : option Z) : nat * nat :=
  (Z.to_nat (from_option (norm_index (Z.of_nat len)) 0%Z start),
   Z.to_nat (from_option (norm_index (Z.of_nat len)) (Z.of_nat len) stop)).

Definition py_slice {A} (l : list A) (start stop : option Z) : list A :=
  let '(lo, hi) := slice_bounds (length l) start stop in
  take (hi - lo) (drop lo l).

(** The contents of [l] after [del l[start:stop]]. *)
Definition py_del_slice {A} (l : list A) (start stop : option Z) : list A :=
  let '(lo, hi) := slice_bounds (length l) start stop in
  take lo l ++ drop (lo `max` hi) l.

(** [range(n)]: empty when [n <= 0]. *)
Definition py_range (n : Z) : list nat := seq 0 (Z.to_nat n).

(** [enumerate(l)] *)
Definition enumerate {A} (l : list A) : list (nat * A) := imap pair l.

(** [zip] applied to the unpacked list [cols]: no argument gives no row;
    otherwise one row per position that every column has, the row holding
    one entry of each column in column order. *)
Fixpoint zip_star {A} (cols : list (list A)) : list (list A) :=
  match cols with
  | [] => []
  | c :: cs =>
      match cs with
      | [] => map (fun x => [x]) c
      | _ :: _ => zip_with cons c (zip_star cs)
      end
  end.

(** ** Dicts

    A [dict] keeps its items in insertion order; a key occurs once.
    [dict_set] is [d[k] = v]: an existing key keeps its place. *)
Definition dict (V : Type) : Type := list (string * V).

Fixpoint dict_get {V} (k : string) (d : dict V) : option V :=
  match d with
  | [] => None
  | (k', v) :: d' => if decide (k = k') then Some v else dict_get k d'
  end.

Fixpoint dict_set {V} (k : string) (v : V) (d : dict V) : dict V :=
  match d with
  | [] => [(k, v)]
  | (k', v') :: d' =>
      if decide (k = k') then (k, v) :: d' else (k', v') :: dict_set k v d'
  end.

Definition keys {V} (d : dict V) : list string := map fst d.
Definition values {V} (d : dict V) : list V := map snd d.

(** The well-formed dicts: no key twice. *)
Definition dict_wf {V} (d : dict V) : Prop := NoDup (keys d).

(** ** The store monad *)

Definition loc : Set := nat.

Section Store.
Context {T : Type}.

(** The list objects allocated so far, and the number of shuffles the
    random number generator has served. *)
Record state : Type := State { heap : list (list T); rng : nat }.

Definition M (A : Type) : Type := state -> result A * state.

Definition ret {A} (a : A) : M A := fun s => (Ok a, s).

Definition raise {A} (e : exn) : M A := fun s => (Raise e, s).

Definition bind {A B} (c : M A) (k : A -> M B) : M B :=
  fun s =>
    match c s with
    | (Ok a, s') => k a s'
    | (Raise e, s') => (Raise e, s')
    end.

(** The contents of the object at [l].  A reference only comes from an
    allocation, so it is always live; the default is never used by a
    computation that starts from live references. *)
Definition deref (l : loc) : M (list T) :=
  fun s => (Ok (default [] (heap s !! l)), s).

Definition new_list (v : list T) : M loc :=
  fun s => (Ok (length (heap s)), State (heap s ++ [v]) (rng s)).

Definition store (l : loc) (v : list T) : M unit :=
  fun s => (Ok tt, State (<[l := v]> (heap s)) (rng s)).
End Store.

Arguments state T : clear implicits.
Arguments M T A : clear implicits.

Declare Scope py_scope.
Delimit Scope py_scope with py.
Notation "x <- c1 ;; c2" := (bind c1 (fun x => c2))
  (at level 100, c1 at next level, right associativity) : py_scope.
Notation "c1 ;; c2" := (bind c1 (fun _ => c2))
  (at level 100, right associativity) : py_scope.
Open Scope py_scope.

Section ListObjects.
Context {T : Type}.

(** The shuffle drawn at each state of the random number generator:
    [shuffle_draw g v] is the order [random.shuffle] gives to a list with
    contents [v] when it is the [g]-th shuffle of the run. *)
Variable shuffle_draw : nat -> list T -> list T.

(** [len(l)] *)
Definition list_len (l : loc) : M T nat :=
  v <- deref l ;; ret (length v).

(** [l.copy()] *)
Definition list_copy (l : loc) : M T loc :=
  v <- deref l ;; new_list v.

(** [shuffle(l)]: in place. *)
Definition list_shuffle (l : loc) : M T unit :=
  fun s =>
    (Ok tt,
     State (<[l := shuffle_draw (rng s) (default [] (heap s !! l))]> (heap s))
           (S (rng s))).

(** [l1 += l2]: in place on [l1]. *)
Definition list_iadd (l1 l2 : loc) : M T unit :=
  v1 <- deref l1 ;; v2 <- deref l2 ;; store l1 (v1 ++ v2).

(** [l[start:stop]]: a new list. *)
Definition list_getslice (l : loc) (start stop : option Z) : M T loc :=
  v <- deref l ;; new_list (py_slice v start stop).

(** [del l[start:stop]]: in place. *)
Definition list_delslice (l : loc) (start stop : option Z) : M T unit :=
  v <- deref l ;; store l (py_del_slice v start stop).

(** [for x in xs: body(x)] *)
Fixpoint for_each {A} (xs : list A) (body : A -> M T unit) : M T unit :=
  match xs with
  | [] => ret tt
  | x :: xs' => body x ;; for_each xs' body
  end.

(** [[f(x) for x in xs]] *)
Fixpoint list_comp {A B} (xs : list A) (f : A -> M T B) : M T (list B) :=
  match xs with
  | [] => ret []
  | x :: xs' => y <- f x ;; ys <- list_comp xs' f ;; ret (y :: ys)
  end.

(** [{k: f(k, v) for k, v in items}], built item by item from [acc]. *)
Fixpoint dict_comp {V W} (items : list (string * V))
    (f : string -> V -> M T W) (acc : dict W) : M T (dict W) :=
  match items with
  | [] => ret acc
  | (k, v) :: rest => w <- f k v ;; dict_comp rest f (dict_set k w acc)
  end.

(** [ceil(a / b)] for integers [a] and [b]: the true division raises
    [ZeroDivisionError] when [b] is zero.  The quotient is a float in the
    source; its ceiling is the exact one as long as [a] is below 2^53,
    which any student count is. *)
Definition ceil_div (a b : Z) : M T Z :=
  if decide (b = 0%Z) then raise ZeroDivisionError
  else ret (- ((- a) / b))%Z.

(** [assign_problems(problems, students_n)], hw.py lines 107-118. *)
Definition assign_problems (problems : loc) (students_n : Z) : M T loc :=
  k <- list_len problems ;;
  n <- ceil_div students_n (Z.of_nat k) ;;
  multiplied_problems <- new_list [] ;;
  for_each (py_range n) (fun _ =>
    p <- list_copy problems ;;
    list_shuffle p ;;
    list_iadd multiplied_problems p) ;;
  list_getslice multiplied_problems None (Some students_n).

(** [slice_pop(l, a, b=None)], hw.py lines 121-128. *)
Definition slice_pop (l : loc) (a : Z) (b : option Z) : M T loc :=
  let '(start, stop) :=
    match b with
    | None => (None, Some a)
    | Some b' => (Some a, Some b')
    end in
  l_slice <- list_getslice l start stop ;;
  list_delslice l start stop ;;
  ret l_slice.

(** The allocation step of [make_group_tables], hw.py lines 139-141: one
    [assign_problems] per problem-set, each for [total] students, and the
    transposition by [zip] of the lists they return. *)
Definition combine (problem_groups : list loc) (total : Z)
    : M T (list (list T)) :=
  assigned <- list_comp problem_groups
                (fun problems => assign_problems problems total) ;;
  columns <- list_comp assigned deref ;;
  ret (zip_star columns).
End ListObjects.

(** ** The tables of [make_group_tables] *)

(** A cell of a table row: the row number or a string. *)
Inductive cell : Set :=
| CInt (n : Z)
| CStr (s : string).

(** A row of [problems_assigned]: one problem per problem-set. *)
Abbreviation prow := (list string).

(** [problems_assigned] and the slices cut from it are lists of rows.  They
    are local to one call of [make_group_tables]: the call runs the
    computation on them in a store of row lists that is empty at first, and
    keeps its result only. *)
Definition in_row_store {T A} (c : M prow A) : M T A :=
  fun s => (fst (c (State [] 0)), s).

Section Tables.
Variable shuffle_draw : nat -> list string -> list string.

(** The partition step, hw.py lines 142-145: for each group in turn, the
    first [len(students)] rows are cut off [problems_assigned]. *)
Definition group_problems_of (groups : dict (list string))
    (problems_assigned : loc) : M prow (dict loc) :=
  dict_comp groups
    (fun _ students =>
       slice_pop problems_assigned (Z.of_nat (length students)) None)
    [].

(** One row, line 148:
    [list((i + 1, student, *(group_problems[group][i])))]. *)
Definition table_row (group_problems : dict loc) (group : string)
    (i : nat) (student : string) : M prow (list cell) :=
  match dict_get group group_problems with
  | None => raise KeyError
  | Some g =>
      tuples <- deref g ;;
      match tuples !! i with
      | None => raise IndexError
      | Some t => ret (CInt (Z.of_nat i + 1) :: CStr student :: map CStr t)
      end
  end.

(** The rows of one group, lines 147-150. *)
Definition group_table (group_problems : dict loc) (group : string)
    (students : list string) : M prow (list (list cell)) :=
  list_comp (enumerate students)
    (fun '(i, student) => table_row group_problems group i student).

(** The row-assembly step, lines 146-152. *)
Definition table_data_of (groups : dict (list string))
    (group_problems : dict loc) : M prow (dict (list (list cell))) :=
  dict_comp groups
    (fun group students => group_table group_problems group students)
    [].

(** [make_group_tables(groups, problem_groups)], hw.py lines 131-153.
    [problem_groups] is a list of references to the problem lists. *)
Definition make_group_tables (groups : dict (list string))
    (problem_groups : list loc) : M string (dict (list (list cell))) :=
  let total_students_n := sum_list (map length (values groups)) in
  rows <- combine shuffle_draw problem_groups (Z.of_nat total_students_n) ;;
  in_row_store (
    problems_assigned <- new_list rows ;;
    group_problems <- group_problems_of groups problems_assigned ;;
    table_data_of groups group_problems).
End Tables.

(** ** Shuffles to run the code with *)

(** The identity, and a shuffle that reverses at every even draw. *)
Definition keep_order {T} (g : nat) (v : list T) : list T := v.

Definition flip_even {T} (g : nat) (v : list T) : list T :=
  if Nat.even g then rev v else v.

(** * The parsers and the table format of [hw.py]

    [parse_students], [parse_problems] and the column format of the LaTeX
    table look at the characters of their input, so their text is a
    sequence of code points, as a Python [str] is.  The functions are
    embedded from the text that [f.read()] returns on; opening and
    decoding the file is left to the interpreter. *)

(** ** Text *)

Definition char : Set := N.

Abbreviation str := (list char).

(** String literals are written in UTF-8; [lit] decodes one into its code
    points. *)
Fixpoint utf8_from (acc : N) (more : nat) (bytes : list N) : str :=
  match bytes with
  | [] => []
  | b :: bytes' =>
      match more with
      | S more' =>
          let acc' := (acc * 64 + b `mod` 64)%N in
          match more' with
          | 0 => acc' :: utf8_from 0 0 bytes'
          | S _ => utf8_from acc' more' bytes'
          end
      | 0 =>
          if (b <? 128)%N then b :: utf8_from 0 0 bytes'
          else if (b <? 224)%N then utf8_from (b `mod` 32)%N 1 bytes'
          else if (b <? 240)%N then utf8_from (b `mod` 16)%N 2 bytes'
          else utf8_from (b `mod` 8)%N 3 bytes'
      end
  end.

Definition lit (s : string) : str :=
  utf8_from 0 0 (map Ascii.N_of_ascii (String.list_ascii_of_string s)).

(** The characters the code names: [" "], ["."], ["\n"], ["["], ["]"]. *)
Definition space : char := 32%N.
Definition dot : char := 46%N.
Definition newline : char := 10%N.
Definition bracket_open : char := 91%N.
Definition bracket_close : char := 93%N.

(** [s.startswith(prefix)] and [s.endswith(suffix)] *)
Definition startswith (s prefix : str) : bool :=
  bool_decide (take (length prefix) s = prefix).

Definition endswith (s suffix : str) : bool :=
  bool_decide (length suffix <= length s /\
               drop (length s - length suffix) s = suffix).

(** [sep.join(parts)] *)
Fixpoint str_join (sep : str) (parts : list str) : str :=
  match parts with
  | [] => []
  | p :: parts' =>
      match parts' with
      | [] => p
      | _ :: _ => p ++ sep ++ str_join sep parts'
      end
  end.

(** [s.split(sep)] for a separator of one character: the pieces between
    the separators, empty ones included; never an empty list. *)
Fixpoint str_split (sep : char) (s : str) : list str :=
  match s with
  | [] => [[]]
  | c :: s' =>
      if decide (c = sep) then [] :: str_split sep s'
      else
        match str_split sep s' with
        | w :: ws => (c :: w) :: ws
        | [] => [[c]]
        end
  end.

(** [re.sub("\.", "", s)]: [s] without its dots. *)
Definition re_sub_dots (s : str) : str := filter (fun c => c <> dot) s.

(** [re.split(" +", s)]: the pieces between the runs of spaces.  A run at
    the start or at the end of [s] leaves an empty piece there.
    [in_run] tells that the character before was a space of the run. *)
Fixpoint re_split_from (in_run : bool) (s : str) : list str :=
  match s with
  | [] => [[]]
  | c :: s' =>
      if decide (c = space) then
        if in_run then re_split_from true s'
        else [] :: re_split_from true s'
      else
        match re_split_from false s' with
        | w :: ws => (c :: w) :: ws
        | [] => [[c]]
        end
  end.

Definition re_split_spaces (s : str) : list str := re_split_from false s.

(** The line boundaries of [str.splitlines]: LF, VT, FF, CR, FS, GS, RS,
    NEL, LS and PS. *)
Definition is_linebreak (c : char) : bool :=
  bool_decide (c ∈ [10; 11; 12; 13; 28; 29; 30; 133; 8232; 8233]%N).

(** [text.splitlines()].  Every boundary ends a line, CR LF being one
    boundary; what follows the last boundary is a line if it is not empty.
    [line] is the line read so far, and [after_cr] tells that the
    character before was a CR. *)
Fixpoint splitlines_from (after_cr : bool) (line : str) (text : str)
    : list str :=
  match text with
  | [] => match line with [] => [] | _ :: _ => [line] end
  | c :: text' =>
      if is_linebreak c then
        if after_cr && bool_decide (c = 10%N)
        then splitlines_from false [] text'
        else line :: splitlines_from (bool_decide (c = 13%N)) [] text'
      else splitlines_from false (line ++ [c]) text'
  end.

Definition splitlines (text : str) : list str := splitlines_from false [] text.

(** [list(filter(len, f.read().splitlines()))]: the non-empty lines. *)
Definition nonempty_lines (text : str) : list str :=
  filter (fun line => length line <> 0) (splitlines text).

(** ** Exceptions with their argument *)

(** An exception of the parsers: the name of its class and [e.args[0]],
    the message, or the key of a [KeyError]. *)
Record error : Type := Error { kind : string; arg : str }.

Inductive outcome (A : Type) : Type :=
| Returns (a : A)
| Raises (e : error).

Arguments Returns {A} a.
Arguments Raises {A} e.

(** [show_docstring_at_exception(func)], hw.py lines 33-39: the wrapped
    function; [doc] is [func.__doc__]. *)
Definition show_docstring_at_exception {A B} (doc : str)
    (func : A -> outcome B) : A -> outcome B :=
  fun args =>
    match func args with
    | Returns b => Returns b
    | Raises e => Raises (Error "Exception" (arg e ++ [newline] ++ doc))
    end.

(** ** Dicts with text keys *)

Definition sdict (V : Type) : Type := list (str * V).

Fixpoint sdict_get {V} (k : str) (d : sdict V) : option V :=
  match d with
  | [] => None
  | (k', v) :: d' => if decide (k = k') then Some v else sdict_get k d'
  end.

Fixpoint sdict_set {V} (k : str) (v : V) (d : sdict V) : sdict V :=
  match d with
  | [] => [(k, v)]
  | (k', v') :: d' =>
      if decide (k = k') then (k, v) :: d' else (k', v') :: sdict_set k v d'
  end.

(** ** [parse_students] and [parse_problems] *)

Section Parsers.
(** The interpreter's message for a list of [got] values unpacked into
    three names, and the docstrings of the two functions as the
    interpreter keeps them. *)
Variable unpack_message : nat -> str.
Variables parse_students_doc parse_problems_doc : str.

(** The student of a line, hw.py lines 77-86.  The line without its dots
    is split at the spaces; three pieces are the three names, two pieces
    get [None] as the third, and any other number of pieces fails the
    unpacking into three names. *)
Definition student_of (last_name first_name : str)
    (patronimic : option str) : str :=
  match patronimic with
  | Some (c :: p) =>
      last_name ++ [space] ++ py_slice first_name None (Some 1%Z)
        ++ [dot; space] ++ py_slice (c :: p) None (Some 1%Z) ++ [dot]
  | Some [] | None =>
      last_name ++ [space] ++ py_slice first_name None (Some 1%Z) ++ [dot]
  end.

Definition parse_student (line : str) : outcome str :=
  let splitted := str_split space (re_sub_dots line) in
  match splitted with
  | [last_name; first_name; patronimic] =>
      Returns (student_of last_name first_name (Some patronimic))
  | [last_name; first_name] =>
      Returns (student_of last_name first_name None)
  | _ =>
      Raises (Error "ValueError" (unpack_message (S (length splitted))))
  end.

(** One turn of the loop over the lines, lines 66-87, on [groups] and
    [current_group]. *)
Definition read_line (filename : str)
    (st : sdict (list str) * option str) (line : str)
    : outcome (sdict (list str) * option str) :=
  let '(groups, current_group) := st in
  if startswith line [bracket_open] && endswith line [bracket_close] then
    let group := py_slice line (Some 1%Z) (Some (-1)%Z) in
    match sdict_get group groups with
    | None => Returns (sdict_set group [] groups, Some group)
    | Some _ =>
        Raises (Error "Exception"
                  (lit "Номер группы повторяется, исправьте файл "
                     ++ filename ++ lit "."))
    end
  else
    match current_group with
    | None =>
        Raises (Error "Exception"
                  ([newline] ++ lit "Исправьте файл " ++ filename ++ lit "."))
    | Some current =>
        match parse_student line with
        | Raises e => Raises e
        | Returns student =>
            match sdict_get current groups with
            | None => Raises (Error "KeyError" current)
            | Some students =>
                Returns (sdict_set current (students ++ [student]) groups,
                         current_group)
            end
        end
    end.

Fixpoint read_lines (filename : str)
    (st : sdict (list str) * option str) (lines : list str)
    : outcome (sdict (list str)) :=
  match lines with
  | [] => Returns st.1
  | line :: lines' =>
      match read_line filename st line with
      | Returns st' => read_lines filename st' lines'
      | Raises e => Raises e
      end
  end.

(** [parse_students(filename)], hw.py lines 42-88, on the text of the
    file. *)
Definition parse_students (filename text : str)
    : outcome (sdict (list str)) :=
  show_docstring_at_exception parse_students_doc
    (fun text => read_lines filename ([], None) (nonempty_lines text))
    text.

(** [parse_problems(filename)], hw.py lines 91-104, on the text of the
    file. *)
Definition parse_problems (text : str) : outcome (list (list str)) :=
  show_docstring_at_exception parse_problems_doc
    (fun text => Returns (map re_split_spaces (nonempty_lines text)))
    text.
End Parsers.

(** ** The column format of the table *)

(** [alignment], hw.py line 18. *)
Definition alignment : sdict str :=
  [(lit "left", lit "l"); (lit "right", lit "r");
   (lit "center", lit "c"); (lit "decimal", lit "r")].

(** [vertical_line_columns(colwidths, colaligns)], hw.py lines 17-20. *)
Definition vertical_line_columns (colwidths : list nat)
    (colaligns : list str) : str :=
  let tabular_columns_fmt :=
    lit "|"
      ++ str_join (lit "|")
           (map (fun a => default (lit "l") (sdict_get a alignment))
              colaligns)
      ++ lit "|" in
  lit "\begin{tabular}{" ++ tabular_columns_fmt ++ lit "}"
    ++ [newline] ++ lit "\hline".

(** * The vocabulary of the properties *)

(** The ceiling [ceil_div] computes, as a number. *)
Definition ceil_quot (a b : Z) : Z := (- ((- a) / b))%Z.

(** The number of blocks of a call. *)
Definition block_count {T} (ps : list T) (n : Z) : nat :=
  Z.to_nat (ceil_quot n (Z.of_nat (length ps))).

(** The blocks of a run: [n] shuffles of [ps], the first one drawn at
    generator state [g]. *)
Definition blocks_from {T} (shuffle_draw : nat -> list T -> list T)
    (g n : nat) (ps : list T) : list (list T) :=
  map (fun i => shuffle_draw (g + i) ps) (seq 0 n).

(** Every block is the problem list [ps] in some order. *)
Definition shuffled {T} (ps : list T) (bs : list (list T)) : Prop :=
  Forall (fun b => b ≡ₚ ps) bs.

(** The number of times [x] occurs in [l]. *)
Definition occurrences {T} `{EqDecision T} (x : T) (l : list T) : nat :=
  count_occ (fun a b => decide (a = b)) l x.

(** [col] is what [assign_problems] returns for the list [ps] and
    [total] when its first shuffle is the [g]-th of the run. *)
Definition allocation_of {T} (shuffle_draw : nat -> list T -> list T)
    (total : Z) (ps col : list T) : Prop :=
  exists g,
    col = py_slice
            (concat (blocks_from shuffle_draw g (block_count ps total) ps))
            None (Some total).

(** The references of [problem_groups] point to the lists [sets]. *)
Definition point_to {T} (s : state T) (problem_groups : list loc)
    (sets : list (list T)) : Prop :=
  Forall2 (fun p ps => heap s !! p = Some ps) problem_groups sets.

(** The slices of sizes [ns] cut one after the other off the front of [v];
    a slice is shorter than its size when [v] runs out. *)
Fixpoint slices {A} (v : list A) (ns : list nat) : list (list A) :=
  match ns with
  | [] => []
  | n :: ns' => take n v :: slices (drop n v) ns'
  end.

(** The sizes of the groups, in roster order. *)
Definition sizes (groups : dict (list string)) : list nat :=
  map length (values groups).

(** The slices the references of [d] point to. *)
Definition slices_of (s : state prow) (d : dict loc) : list (list prow) :=
  map (fun r => default [] (heap s !! r)) (values d).

(** The row of the student at position [i], given the tuple there. *)
Definition row_of (i : nat) (student : string) (t : prow) : list cell :=
  CInt (Z.of_nat i + 1) :: CStr student :: map CStr t.

(** The rows of a group whose slice is [tuples]. *)
Definition rows_for (students : list string) (tuples : list prow)
    : list (list cell) :=
  imap (fun i '(student, t) => row_of i student t) (zip students tuples).

(** The tables of a roster when [combined] is the list of its rows: each
    group has the rows of its slice. *)
Definition tables_of (groups : dict (list string)) (combined : list prow)
    : dict (list (list cell)) :=
  zip_with (fun '(group, students) sl => (group, rows_for students sl))
    groups (slices combined (sizes groups)).

(** What the row-assembly step needs of a group and its slice [sl]: the
    group's reference in [gp] points to [sl], and [sl] has a tuple for
    every student. *)
Definition served (s : state prow) (gp : dict loc)
    (item : string * list string) (sl : list prow) : Prop :=
  exists g, dict_get item.1 gp = Some g /\ heap s !! g = Some sl /\
            length item.2 <= length sl.

(** Cells compare by value. *)
#[global] Instance cell_eq_dec : EqDecision cell.
Proof. solve_decision. Defined.

(** The problems of problem-set [j] in the tables, student after student
    over the groups in roster order: in every row, the cell that comes
    after the number, the student and the [j] earlier problems. *)
Definition handed_out (j : nat) (tables : dict (list (list cell)))
    : list cell :=
  omap (fun row : list cell => row !! (2 + j)) (concat (values tables)).

(** A header line of the roster file, and the group name in it. *)
Definition is_header (line : str) : bool :=
  startswith line [bracket_open] && endswith line [bracket_close].

Definition header_name (line : str) : str :=
  py_slice line (Some 1%Z) (Some (-1)%Z).

(** The group names of the header lines, and the lines of the students. *)
Definition header_names (lines : list str) : list str :=
  map header_name (filter (fun line => is_header line) lines).

Definition student_lines (lines : list str) : list str :=
  filter (fun line => ~ is_header line) lines.

(** The names on a student line. *)
Definition names_of (line : str) : list str :=
  str_split space (re_sub_dots line).

(** The messages of the two checks of [parse_students]. *)
Definition repeated_group (filename : str) : str :=
  lit "Номер группы повторяется, исправьте файл " ++ filename ++ lit ".".

Definition student_before_group (filename : str) : str :=
  [newline] ++ lit "Исправьте файл " ++ filename ++ lit ".".

(** The rosters [parse_students] accepts: the first line is a header, no
    group name comes twice, and every student line has two or three
    names. *)
Definition well_formed (lines : list str) : Prop :=
  match lines with
  | [] => True
  | line :: _ => is_header line = true
  end /\
  NoDup (header_names lines) /\
  Forall (fun line => is_header line = false ->
                      length (names_of line) = 2 \/
                      length (names_of line) = 3) lines.

(** What holds of [groups] and [current_group] between two lines: no
    group name is there twice, and the current group, once there is one,
    is the group that was added last. *)
Definition reading (st : sdict (list str) * option str) : Prop :=
  NoDup (map fst st.1) /\
  match st.2 with
  | None => st.1 = []
  | Some g => exists pre students, st.1 = pre ++ [(g, students)]
  end.

(** The lines the loop of [parse_students] gets through from [st]. *)
Definition accepted (st : sdict (list str) * option str)
    (lines : list str) : Prop :=
  (st.2 = None ->
   match lines with
   | [] => True
   | line :: _ => is_header line = true
   end) /\
  NoDup (map fst st.1 ++ header_names lines) /\
  Forall (fun line => is_header line = false ->
                      length (names_of line) = 2 \/
                      length (names_of line) = 3) lines.

(** A problem label that a problem file gives back: not empty, without a
    space and without a line boundary. *)
Definition plain (label : str) : Prop :=
  label <> [] /\
  Forall (fun c => c <> space /\ is_linebreak c = false) label.

(** The letter of a column. *)
Definition column_letter (a : str) : char :=
  if decide (a = lit "right" \/ a = lit "decimal") then 114%N
  else if decide (a = lit "center") then 99%N
  else 108%N.

(** ** Stores and rosters to run the code on *)

(** A store with one problem list, [["p1", "p2"]], at reference 0. *)
Definition two_problems : state string :=
  State [["p1"; "p2"]%string] 0.

(** A store with a problem list and an empty one. *)
Definition with_empty_set : state string :=
  State [["p1"; "p2"]; []]%string 0.

(** A roster of two groups and the three rows allocated to them. *)
Definition two_groups : dict (list string) :=
  [("A", ["X"; "Y"]); ("B", ["Z"])]%string.

Definition three_rows : state prow :=
  State [[["p2"]; ["p1"]; ["p1"]]%string] 0.

(** * Properties *)

(** ** Arithmetic of the block count *)


Lemma ceil_quot_bounds (a b : Z) :
  (0 < b)%Z -> (a <= b * ceil_quot a b < a + b)%Z.
Proof.
  intros Hb. unfold ceil_quot.
  pose proof (Z.div_mod (- a) b ltac:(lia)) as Hdm.
  pose proof (Z.mod_pos_bound (- a) b Hb) as Hm.
  lia.
Qed.

Lemma ceil_quot_nonneg (a b : Z) : (0 < b)%Z -> (0 <= a)%Z -> (0 <= ceil_quot a b)%Z.
Proof.
  intros Hb Ha. pose proof (ceil_quot_bounds a b Hb). nia.
Qed.

Lemma ceil_quot_nonpos (a b : Z) : (0 < b)%Z -> (a <= 0)%Z -> (ceil_quot a b <= 0)%Z.
Proof.
  intros Hb Ha. pose proof (ceil_quot_bounds a b Hb). nia.
Qed.

Lemma ceil_quot_one (a b : Z) : (0 < a)%Z -> (a <= b)%Z -> ceil_quot a b = 1%Z.
Proof.
  intros Ha Hab. pose proof (ceil_quot_bounds a b ltac:(lia)) as [Hlo Hhi].
  assert (0 < ceil_quot a b)%Z by nia.
  destruct (Z.le_gt_cases 2 (ceil_quot a b)) as [H2|H2]; [|lia].
  pose proof (Z.mul_le_mono_nonneg_l 2 (ceil_quot a b) b ltac:(lia) H2).
  lia.
Qed.

(** ** Slices with a default start *)

Lemma py_slice_prefix {A} (l : list A) (a : Z) :
  (0 <= a)%Z -> py_slice l None (Some a) = take (Z.to_nat a) l.
Proof.
  intros Ha. unfold py_slice, slice_bounds, norm_index. simpl.
  change (Z.to_nat 0) with 0. rewrite Nat.sub_0_r, drop_0.
  destruct (Z.ltb_spec a 0); [lia|].
  destruct (Z.min_spec a (Z.of_nat (length l))) as [[Hlt ->]|[Hge ->]]; [done|].
  rewrite Nat2Z.id. rewrite !take_ge; [done|lia..].
Qed.

Lemma py_del_slice_prefix {A} (l : list A) (a : Z) :
  (0 <= a)%Z -> py_del_slice l None (Some a) = drop (Z.to_nat a) l.
Proof.
  intros Ha. unfold py_del_slice, slice_bounds, norm_index. simpl.
  change (Z.to_nat 0) with 0. simpl.
  destruct (Z.ltb_spec a 0); [lia|].
  destruct (Z.min_spec a (Z.of_nat (length l))) as [[Hlt ->]|[Hge ->]]; [done|].
  rewrite Nat2Z.id. rewrite !drop_ge; [done|lia..].
Qed.

(** Whatever the bound, the slice and what the deletion leaves make up the
    list. *)
Lemma py_slice_del_prefix {A} (l : list A) (a : Z) :
  py_slice l None (Some a) ++ py_del_slice l None (Some a) = l.
Proof.
  unfold py_slice, py_del_slice, slice_bounds. simpl.
  change (Z.to_nat 0) with 0.
  simpl. rewrite Nat.sub_0_r. apply take_drop.
Qed.

(** ** Lookups and updates at the end of the store *)

Lemma lookup_end {A} (l : list A) (x : A) : (l ++ [x]) !! length l = Some x.
Proof. by apply list_lookup_middle. Qed.

Lemma insert_middle {A} (l1 l2 : list A) (x y : A) :
  <[length l1 := y]> (l1 ++ x :: l2) = l1 ++ y :: l2.
Proof.
  replace (length l1) with (length l1 + 0) by lia.
  by rewrite insert_app_r.
Qed.

Lemma insert_end {A} (l : list A) (x y : A) :
  <[length l := y]> (l ++ [x]) = l ++ [y].
Proof. apply insert_middle. Qed.

(** ** What a run of [assign_problems] does to the store *)

Section AssignProblemsRun.
Context {T : Type}.
Variable shuffle_draw : nat -> list T -> list T.

Lemma blocks_from_S g n ps :
  blocks_from shuffle_draw g (S n) ps
  = shuffle_draw g ps :: blocks_from shuffle_draw (S g) n ps.
Proof.
  unfold blocks_from. simpl. rewrite Nat.add_0_r. f_equal.
  rewrite <- fmap_S_seq. rewrite <- list_fmap_compose.
  apply list_fmap_ext. intros _ i _. simpl. f_equal. lia.
Qed.

Lemma length_blocks_from g n ps :
  length (blocks_from shuffle_draw g n ps) = n.
Proof. unfold blocks_from. by rewrite length_map, length_seq. Qed.

(** One turn of the loop of [assign_problems]: the copy is allocated at
    the end of the store, shuffled there, and appended to the
    accumulator. *)
Lemma block_step (p : loc) (ps : list T) (h : list (list T))
    (acc : list T) (bs : list (list T)) (g : nat) :
  h !! p = Some ps ->
  (p' <- list_copy p ;;
   list_shuffle shuffle_draw p' ;;
   list_iadd (length h) p') (State (h ++ acc :: bs) g)
  = (Ok tt,
     State (h ++ (acc ++ shuffle_draw g ps) :: bs ++ [shuffle_draw g ps])
           (S g)).
Proof.
  intros Hp.
  unfold bind, list_copy, list_shuffle, list_iadd, bind, deref, new_list,
    store, ret. simpl.
  rewrite (lookup_app_l_Some _ _ _ _ Hp). simpl.
  rewrite lookup_end. simpl. rewrite insert_end.
  rewrite lookup_end. simpl.
  rewrite <- (assoc_L (++)). simpl.
  rewrite list_lookup_middle by done. simpl.
  by rewrite insert_middle.
Qed.

Lemma for_each_blocks {A} (xs : list A) (p : loc) (ps : list T)
    (h : list (list T)) (acc : list T) (bs : list (list T)) (g : nat) :
  h !! p = Some ps ->
  for_each xs (fun _ =>
    p' <- list_copy p ;;
    list_shuffle shuffle_draw p' ;;
    list_iadd (length h) p') (State (h ++ acc :: bs) g)
  = (Ok tt,
     State (h ++ (acc ++ concat (blocks_from shuffle_draw g (length xs) ps))
              :: bs ++ blocks_from shuffle_draw g (length xs) ps)
           (g + length xs)).
Proof.
  intros Hp. revert acc bs g.
  induction xs as [|x xs IH]; intros acc bs g.
  - simpl. unfold ret. by rewrite !app_nil_r, Nat.add_0_r.
  - cbn [for_each length]. unfold bind at 1.
    rewrite (block_step p ps h acc bs g Hp).
    rewrite IH, blocks_from_S. simpl.
    rewrite <- !(assoc_L (++)). simpl.
    by rewrite Nat.add_succ_r.
Qed.

(** A call on an empty list raises at the division, before anything is
    allocated. *)
Lemma assign_problems_empty (p : loc) (n : Z) (s : state T) :
  default [] (heap s !! p) = [] ->
  assign_problems shuffle_draw p n s = (Raise ZeroDivisionError, s).
Proof.
  intros Hp. unfold assign_problems, bind, list_len, bind, deref, ret.
  rewrite Hp. done.
Qed.


(** A call on a non-empty list allocates the accumulator, the blocks and
    the result, in this order, at the end of the store. *)
Lemma assign_problems_run (p : loc) (n : Z) (s : state T) (ps : list T) :
  heap s !! p = Some ps -> ps <> [] ->
  let bs := blocks_from shuffle_draw (rng s) (block_count ps n) ps in
  assign_problems shuffle_draw p n s
  = (Ok (S (length (heap s) + block_count ps n)),
     State (heap s ++ concat bs :: bs ++ [py_slice (concat bs) None (Some n)])
           (rng s + block_count ps n)).
Proof.
  intros Hp Hne bs. destruct s as [h g]. simpl in *.
  unfold assign_problems, bind at 1, list_len, bind at 1, deref, ret. simpl.
  rewrite Hp. simpl.
  unfold bind at 1, ceil_div.
  destruct (decide (Z.of_nat (length ps) = 0%Z)) as [H0|_].
  { destruct ps; [done|simpl in H0; lia]. }
  unfold ret at 1. unfold bind at 1, new_list at 1. simpl.
  unfold bind at 1.
  pose proof (for_each_blocks (py_range (ceil_quot n (Z.of_nat (length ps))))
                p ps h [] [] g Hp) as Hloop.
  unfold ceil_quot in *. simpl in Hloop. rewrite Hloop. clear Hloop.
  unfold py_range. rewrite length_seq.
  fold (ceil_quot n (Z.of_nat (length ps))). fold (block_count ps n). fold bs.
  unfold list_getslice, bind, deref, new_list. simpl.
  rewrite list_lookup_middle by done. simpl.
  rewrite length_app. simpl. unfold bs at 1. rewrite length_blocks_from.
  f_equal.
  - f_equal. lia.
  - f_equal. rewrite <- (assoc_L (++)). done.
Qed.
End AssignProblemsRun.

(** ** Counting in a prefix of shuffled blocks *)


Section Blocks.
Context {T : Type} `{EqDecision T}.
Variable ps : list T.


Lemma occurrences_app (x : T) (l1 l2 : list T) :
  occurrences x (l1 ++ l2) = occurrences x l1 + occurrences x l2.
Proof. apply count_occ_app. Qed.

Lemma occurrences_perm (x : T) (l1 l2 : list T) :
  l1 ≡ₚ l2 -> occurrences x l1 = occurrences x l2.
Proof.
  intros Hp. unfold occurrences.
  by apply (proj1 (Permutation_count_occ _ l1 l2)).
Qed.

Lemma occurrences_take (x : T) (n : nat) (l : list T) :
  occurrences x (take n l) <= occurrences x l.
Proof.
  rewrite <- (take_drop n l) at 2. rewrite occurrences_app. lia.
Qed.

Lemma occurrences_NoDup (x : T) (l : list T) :
  NoDup l -> x ∈ l -> occurrences x l = 1.
Proof.
  intros Hnd Hin. unfold occurrences.
  apply NoDup_ListNoDup in Hnd.
  pose proof (proj1 (NoDup_count_occ (fun a b => decide (a = b)) l) Hnd x).
  apply list_elem_of_In in Hin.
  apply (count_occ_In (fun a b => decide (a = b))) in Hin. lia.
Qed.

Lemma length_concat_shuffled (bs : list (list T)) :
  shuffled ps bs -> length (concat bs) = length bs * length ps.
Proof.
  induction 1 as [|b bs Hb _ IH]; [done|].
  simpl. rewrite length_app, IH. by rewrite (Permutation_length Hb).
Qed.

(** [q] whole blocks fit in the prefix: every problem is there at least
    [q] times for each of its occurrences in the problem list. *)
Lemma occurrences_prefix_lower (x : T) (bs : list (list T)) :
  shuffled ps bs ->
  forall c q : nat,
    q * length ps <= c -> c <= length bs * length ps ->
    q * occurrences x ps <= occurrences x (take c (concat bs)).
Proof.
  induction 1 as [|b bs Hb _ IH]; intros c q Hq Hc.
  - simpl in *. destruct q as [|q]; [lia|].
    destruct ps; simpl in *; lia.
  - destruct q as [|q]; [lia|].
    simpl in *. rewrite take_app, occurrences_app.
    pose proof (Permutation_length Hb) as Hlen.
    rewrite take_ge by lia.
    rewrite (occurrences_perm x b ps Hb).
    specialize (IH (c - length b) q ltac:(lia) ltac:(lia)). lia.
Qed.

(** The prefix fits in [q] blocks: every problem is there at most [q]
    times for each of its occurrences in the problem list. *)
Lemma occurrences_prefix_upper (x : T) (bs : list (list T)) :
  shuffled ps bs ->
  forall c q : nat,
    c <= q * length ps ->
    occurrences x (take c (concat bs)) <= q * occurrences x ps.
Proof.
  induction 1 as [|b bs Hb _ IH]; intros c q Hc.
  - simpl. rewrite take_nil. unfold occurrences. simpl. lia.
  - destruct q as [|q].
    + replace c with 0 by lia. rewrite take_0. unfold occurrences. simpl. lia.
    + simpl in *. rewrite take_app, occurrences_app.
      pose proof (Permutation_length Hb) as Hlen.
      pose proof (occurrences_take x c b) as Hb'.
      rewrite (occurrences_perm x b ps Hb) in Hb'.
      specialize (IH (c - length b) q ltac:(lia)). lia.
Qed.
End Blocks.

(** ** The allocator: [assign_problems] *)

Section Allocator.
Context {T : Type}.
Variable shuffle_draw : nat -> list T -> list T.

(** [random.shuffle] reorders; it neither drops nor adds an element. *)
Hypothesis shuffle_perm : forall g v, shuffle_draw g v ≡ₚ v.

Lemma blocks_from_shuffled (g n : nat) (ps : list T) :
  shuffled ps (blocks_from shuffle_draw g n ps).
Proof.
  revert g. induction n as [|n IH]; intros g; [by constructor|].
  rewrite blocks_from_S. constructor; [apply shuffle_perm|apply IH].
Qed.

Lemma length_concat_blocks (g : nat) (ps : list T) (n : Z) :
  ps <> [] -> (0 <= n)%Z ->
  Z.to_nat n <=
    length (concat (blocks_from shuffle_draw g (block_count ps n) ps)).
Proof.
  intros Hne Hn.
  rewrite (length_concat_shuffled ps) by apply blocks_from_shuffled.
  rewrite length_blocks_from. unfold block_count.
  assert (0 < Z.of_nat (length ps))%Z as Hk by (destruct ps; simpl; [done|lia]).
  pose proof (ceil_quot_bounds n _ Hk).
  pose proof (ceil_quot_nonneg n _ Hk Hn). nia.
Qed.

(** What a call on a non-empty list returns, whatever [count] is: the
    slice [[:count]] of the concatenated blocks, in a list of its own;
    the lists that were there before are as they were. *)
Lemma assign_problems_returns (s : state T) (problems : loc) (ps : list T)
    (count : Z) :
  heap s !! problems = Some ps -> ps <> [] ->
  exists r s',
    assign_problems shuffle_draw problems count s = (Ok r, s') /\
    heap s' !! r =
      Some (py_slice
              (concat (blocks_from shuffle_draw (rng s)
                         (block_count ps count) ps))
              None (Some count)) /\
    rng s' = rng s + block_count ps count /\
    forall l v, heap s !! l = Some v -> heap s' !! l = Some v.
Proof.
  intros Hp Hne.
  rewrite (assign_problems_run shuffle_draw problems count s ps Hp Hne).
  eexists _, _. split; [reflexivity|]. simpl. split; [|split; [done|]].
  - set (bs := blocks_from _ _ _ _).
    change (heap s ++ concat bs :: bs ++ ?o)
      with (heap s ++ (concat bs :: bs) ++ o).
    rewrite (assoc_L (++)).
    replace (S (length (heap s) + block_count ps count))
      with (length (heap s ++ concat bs :: bs)).
    + apply lookup_end.
    + rewrite length_app. simpl. unfold bs. rewrite length_blocks_from. lia.
  - intros l v Hl. by apply lookup_app_l_Some.
Qed.

(** For a [count] that is not negative the slice is a prefix. *)
Lemma assign_problems_result (s : state T) (problems : loc) (ps : list T)
    (count : Z) :
  heap s !! problems = Some ps -> ps <> [] -> (0 <= count)%Z ->
  exists r s',
    assign_problems shuffle_draw problems count s = (Ok r, s') /\
    heap s' !! r =
      Some (take (Z.to_nat count)
              (concat (blocks_from shuffle_draw (rng s)
                         (block_count ps count) ps))) /\
    rng s' = rng s + block_count ps count /\
    forall l v, heap s !! l = Some v -> heap s' !! l = Some v.
Proof.
  intros Hp Hne Hc.
  destruct (assign_problems_returns s problems ps count Hp Hne)
    as (r & s' & Hrun & Hout & Hrng & Hframe).
  exists r, s'. by rewrite <- py_slice_prefix.
Qed.


(** C10. [assign_problems] leaves the list it is given as it was: the
    object at [problems] has the same contents after the call, whatever
    [students_n] is and whether the call returns or raises. *)
Theorem assign_problems_keeps_argument (s : state T) (problems : loc)
    (ps : list T) (students_n : Z) :
  heap s !! problems = Some ps ->
  heap (snd (assign_problems shuffle_draw problems students_n s)) !! problems
  = Some ps.
Proof.
  intros Hp. destruct (decide (ps = [])) as [->|Hne].
  - rewrite assign_problems_empty; [done|]. by rewrite Hp.
  - rewrite (assign_problems_run shuffle_draw problems students_n s ps Hp Hne).
    simpl. by apply lookup_app_l_Some.
Qed.

(** C8, as the code has it. For [0 < count < len(problems)] the result is
    the first [count] elements of one shuffled block; its elements are
    pairwise distinct when those of [problems] are. *)
Theorem assign_problems_single_block (s : state T) (problems : loc)
    (ps : list T) (count : Z) :
  heap s !! problems = Some ps -> (0 < count)%Z ->
  (count < Z.of_nat (length ps))%Z ->
  exists r s' out,
    assign_problems shuffle_draw problems count s = (Ok r, s') /\
    heap s' !! r = Some out /\
    out = take (Z.to_nat count) (shuffle_draw (rng s) ps) /\
    (NoDup ps -> NoDup out).
Proof.
  intros Hp Hc Hlt.
  assert (ps <> []) as Hne by (intros ->; simpl in Hlt; lia).
  destruct (assign_problems_result s problems ps count Hp Hne ltac:(lia))
    as (r & s' & Hrun & Hout & _).
  assert (block_count ps count = 1) as Hone.
  { unfold block_count. rewrite ceil_quot_one by lia. done. }
  rewrite Hone in Hout. unfold blocks_from in Hout. simpl in Hout.
  rewrite app_nil_r, Nat.add_0_r in Hout.
  eexists r, s', _. split; [done|]. split; [done|]. split; [done|].
  intros Hnd. apply (sublist_NoDup _ (shuffle_draw (rng s) ps)).
  - by rewrite (shuffle_perm (rng s) ps).
  - apply sublist_take.
Qed.
End Allocator.

Section AllocatorCount.
Context {T : Type} `{EqDecision T}.
Variable shuffle_draw : nat -> list T -> list T.
Hypothesis shuffle_perm : forall g v, shuffle_draw g v ≡ₚ v.

End AllocatorCount.

(** ** Runs of the allocator *)

Lemma keep_order_perm {T} (g : nat) (v : list T) : keep_order g v ≡ₚ v.
Proof. done. Qed.

Lemma flip_even_perm {T} (g : nat) (v : list T) : flip_even g v ≡ₚ v.
Proof.
  unfold flip_even. destruct (Nat.even g); [|done].
  symmetry. apply Permutation_rev.
Qed.



Lemma assign_problems_keeps_argument_witness :
  heap (snd (assign_problems flip_even 0 3 two_problems)) !! 0
  = Some ["p1"; "p2"]%string.
Proof.
  apply (assign_problems_keeps_argument flip_even two_problems 0
           ["p1"; "p2"]%string 3).
  reflexivity.
Defined.



Lemma assign_problems_single_block_witness :
  exists r s' out,
    assign_problems flip_even 0 1 two_problems = (Ok r, s') /\
    heap s' !! r = Some out /\
    out = take (Z.to_nat 1) (flip_even (rng two_problems) ["p1"; "p2"]%string) /\
    (NoDup ["p1"; "p2"]%string -> NoDup out).
Proof.
  apply (assign_problems_single_block flip_even flip_even_perm two_problems 0
           ["p1"; "p2"]%string 1);
    [reflexivity | lia | simpl; lia].
Defined.

(** C8 as the specification states it fails on a list with a repeated
    label: of [["a", "a", "b"]] and [count = 2] the result is [["a", "a"]]. *)
Lemma assign_problems_single_block_repeated :
  exists r s' out,
    assign_problems keep_order 0 2 (State [["a"; "a"; "b"]%string] 0)
    = (Ok r, s') /\
    heap s' !! r = Some out /\
    (0 < 2 < Z.of_nat (length ["a"; "a"; "b"]%string))%Z /\
    ~ NoDup out.
Proof.
  eexists _, _, _. split; [reflexivity|]. split; [reflexivity|].
  split; [simpl; lia|].
  intros Hnd. apply NoDup_cons in Hnd as [Hnotin _].
  apply Hnotin. by left.
Qed.

(** ** The partitioner: [slice_pop] over the groups *)

Section SlicePop.
Context {T : Type}.

(** A call with two arguments allocates the slice at the end of the store
    and writes what is left back to [l]. *)
Lemma slice_pop_run (l : loc) (a : Z) (s : state T) (v : list T) :
  heap s !! l = Some v ->
  slice_pop l a None s
  = (Ok (length (heap s)),
     State (<[l := py_del_slice v None (Some a)]> (heap s)
              ++ [py_slice v None (Some a)])
           (rng s)).
Proof.
  intros Hl.
  unfold slice_pop, list_getslice, list_delslice, bind, deref, new_list,
    store, ret. simpl.
  rewrite Hl. simpl. rewrite (lookup_app_l_Some _ _ _ _ Hl). simpl.
  rewrite insert_app_l by (by eapply lookup_lt_Some). done.
Qed.

(** C9. For a non-negative [a], [slice_pop(l, a)] returns the prefix
    [l[:a]] and leaves the rest in [l]: the slice followed by the new
    contents of [l] is the old contents of [l]. *)
Theorem slice_pop_prefix (s : state T) (l : loc) (v : list T) (a : Z) :
  heap s !! l = Some v -> (0 <= a)%Z ->
  exists r s' l_slice rest,
    slice_pop l a None s = (Ok r, s') /\
    heap s' !! r = Some l_slice /\
    heap s' !! l = Some rest /\
    l_slice = take (Z.to_nat a) v /\
    rest = drop (Z.to_nat a) v /\
    l_slice ++ rest = v.
Proof.
  intros Hl Ha. rewrite (slice_pop_run l a s v Hl).
  pose proof (lookup_lt_Some _ _ _ Hl) as Hlt.
  eexists _, _, _, _. split; [reflexivity|]. simpl.
  split; [|split; [|split; [|split]]].
  - rewrite <- (length_insert (heap s) l (py_del_slice v None (Some a))).
    apply lookup_end.
  - rewrite lookup_app_l by by rewrite length_insert.
    by apply list_lookup_insert_eq.
  - by apply py_slice_prefix.
  - by apply py_del_slice_prefix.
  - apply py_slice_del_prefix.
Qed.
End SlicePop.

Lemma slice_pop_prefix_witness :
  exists r s' l_slice rest,
    slice_pop 0 2 None (State [[1; 2; 3]] 0) = (Ok r, s') /\
    heap s' !! r = Some l_slice /\
    heap s' !! 0 = Some rest /\
    l_slice = take (Z.to_nat 2) [1; 2; 3] /\
    rest = drop (Z.to_nat 2) [1; 2; 3] /\
    l_slice ++ rest = [1; 2; 3].
Proof.
  apply (slice_pop_prefix (State [[1; 2; 3]] 0) 0 [1; 2; 3] 2);
    [reflexivity | lia].
Defined.

(** ** Dicts built key by key *)

Lemma dict_set_fresh {V} (k : string) (v : V) (d : dict V) :
  k ∉ keys d -> dict_set k v d = d ++ [(k, v)].
Proof.
  induction d as [|[k' v'] d IH]; intros Hk; [done|].
  simpl in *. apply not_elem_of_cons in Hk as [Hne Hk].
  destruct (decide (k = k')); [done|]. by rewrite IH.
Qed.

Lemma dict_get_app_fresh {V} (k : string) (d1 d2 : dict V) :
  k ∉ keys d1 -> dict_get k (d1 ++ d2) = dict_get k d2.
Proof.
  induction d1 as [|[k' v'] d1 IH]; intros Hk; [done|].
  simpl in *. apply not_elem_of_cons in Hk as [Hne Hk].
  destruct (decide (k = k')); [done|]. by apply IH.
Qed.

Lemma keys_app {V} (d1 d2 : dict V) : keys (d1 ++ d2) = keys d1 ++ keys d2.
Proof. apply map_app. Qed.

(** ** Consecutive slices *)


Lemma length_slices {A} (v : list A) (ns : list nat) :
  length (slices v ns) = length ns.
Proof. revert v. induction ns as [|n ns IH]; intros v; simpl; by rewrite ?IH. Qed.

Lemma concat_slices {A} (v : list A) (ns : list nat) :
  concat (slices v ns) = take (sum_list ns) v.
Proof.
  revert v. induction ns as [|n ns IH]; intros v; simpl.
  - by rewrite take_0.
  - rewrite IH. apply take_take_drop.
Qed.

Lemma slices_full {A} (v : list A) (ns : list nat) :
  sum_list ns = length v -> Forall2 (fun sl n => length sl = n) (slices v ns) ns.
Proof.
  revert v. induction ns as [|n ns IH]; intros v Hsum; simpl in *.
  - constructor.
  - constructor.
    + rewrite length_take. lia.
    + apply IH. rewrite length_drop. lia.
Qed.


Section Partition.
(** The partition step on a well-formed roster: group after group, the
    slice goes to the end of the store and [l] keeps the rest. *)
Lemma group_problems_run (groups : dict (list string)) :
  forall (acc : dict loc) (s : state prow) (l : loc) (v : list prow),
    heap s !! l = Some v ->
    NoDup (keys groups) ->
    (forall k, k ∈ keys groups -> k ∉ keys acc) ->
    dict_comp groups
      (fun _ students => slice_pop l (Z.of_nat (length students)) None)
      acc s
    = (Ok (acc ++ zip (keys groups) (seq (length (heap s)) (length groups))),
       State (<[l := drop (sum_list (sizes groups)) v]> (heap s)
                ++ slices v (sizes groups))
             (rng s)).
Proof.
  induction groups as [|[k students] groups IH]; intros acc s l v Hl Hnd Hacc.
  - destruct s as [h g]. simpl in *. unfold ret.
    rewrite !app_nil_r, drop_0. by rewrite list_insert_id.
  - cbn [dict_comp]. unfold bind at 1.
    rewrite (slice_pop_run l _ s v Hl).
    rewrite py_slice_prefix, py_del_slice_prefix, Nat2Z.id by lia.
    pose proof (lookup_lt_Some _ _ _ Hl) as Hlt.
    simpl in Hnd. apply NoDup_cons in Hnd as [Hk Hnd].
    rewrite dict_set_fresh by (apply Hacc; simpl; by left).
    rewrite (IH _ _ l (drop (length students) v)); simpl.
    + rewrite length_app, length_insert. simpl.
      replace (length (heap s) + 1) with (S (length (heap s))) by lia.
      f_equal.
      * by rewrite <- (assoc_L (++)).
      * f_equal. rewrite insert_app_l by by rewrite length_insert.
        rewrite list_insert_insert_eq, drop_drop.
        by rewrite <- (assoc_L (++)).
    + rewrite lookup_app_l by by rewrite length_insert.
      by apply list_lookup_insert_eq.
    + done.
    + intros k' Hk'. rewrite keys_app. simpl.
      apply not_elem_of_app. split.
      * apply Hacc. simpl. by right.
      * apply not_elem_of_cons. split; [|apply not_elem_of_nil].
        intros ->. done.
Qed.

Lemma values_zip {A B} (ks : list A) (vs : list B) :
  length ks = length vs -> map snd (zip ks vs) = vs.
Proof. intros Hlen. by apply snd_zip; rewrite Hlen. Qed.

Lemma keys_zip {A B} (ks : list A) (vs : list B) :
  length ks = length vs -> map fst (zip ks vs) = ks.
Proof. intros Hlen. by apply fst_zip; rewrite Hlen. Qed.


(** The references the step returns point to the slices. *)
Lemma new_objects_point_to {A} (xs : list (list A)) :
  forall (h : list (list A)) (g : nat),
    point_to (State (h ++ xs) g) (seq (length h) (length xs)) xs.
Proof.
  induction xs as [|x xs IH]; intros h g; [constructor|].
  simpl. constructor.
  - simpl. by apply list_lookup_middle.
  - specialize (IH (h ++ [x]) g). rewrite length_app in IH. simpl in IH.
    rewrite <- (assoc_L (++)) in IH. simpl in IH.
    by replace (length h + 1) with (S (length h)) in IH by lia.
Qed.

Lemma slices_of_point_to (s : state prow) (d : dict loc)
    (xs : list (list prow)) :
  point_to s (values d) xs -> slices_of s d = xs.
Proof.
  unfold slices_of. generalize (values d). intros rs.
  induction 1 as [|r x rs xs Hr _ IH]; [done|].
  simpl. rewrite Hr, IH. done.
Qed.

(** The partition step always returns: each group gets the next rows of
    the list, as many as it has students if there are that many left. *)
Lemma group_problems_of_run (groups : dict (list string)) (s : state prow)
    (l : loc) (combined : list prow) :
  heap s !! l = Some combined -> dict_wf groups ->
  exists gp s',
    group_problems_of groups l s = (Ok gp, s') /\
    keys gp = keys groups /\
    slices_of s' gp = slices combined (sizes groups) /\
    heap s' !! l = Some (drop (sum_list (sizes groups)) combined) /\
    point_to s' (values gp) (slices combined (sizes groups)).
Proof.
  intros Hl Hwf. unfold group_problems_of.
  rewrite (group_problems_run groups [] s l combined Hl Hwf)
    by (intros k _; apply not_elem_of_nil).
  pose proof (lookup_lt_Some _ _ _ Hl) as Hlt.
  eexists _, _. split; [reflexivity|]. simpl.
  assert (length (keys groups) = length (seq (length (heap s)) (length groups)))
    as Hlen by (unfold keys; by rewrite length_map, length_seq).
  assert (point_to
            (State (<[l := drop (sum_list (sizes groups)) combined]> (heap s)
                      ++ slices combined (sizes groups)) (rng s))
            (values (zip (keys groups) (seq (length (heap s)) (length groups))))
            (slices combined (sizes groups))) as Hpt.
  { unfold values. rewrite values_zip by done.
    rewrite <- (length_insert (heap s) l
                 (drop (sum_list (sizes groups)) combined)).
    replace (length groups) with (length (slices combined (sizes groups)))
      by (rewrite length_slices; unfold sizes, values;
          by rewrite !length_map).
    apply new_objects_point_to. }
  split; [by apply keys_zip|]. split; [by apply slices_of_point_to|].
  split; [|done].
  rewrite lookup_app_l by by rewrite length_insert.
  by apply list_lookup_insert_eq.
Qed.
End Partition.


(** C3. On a roster whose group sizes add up to the length of the combined
    list, the partition step keeps length and order: the slices of the
    groups, concatenated in roster order, are the combined list, each slice
    has the size of its group, and the slice lengths add up to the length of
    the list. *)
Theorem partition_preserves (groups : dict (list string)) (s : state prow)
    (l : loc) (combined : list prow) :
  heap s !! l = Some combined -> dict_wf groups ->
  sum_list (sizes groups) = length combined ->
  exists gp s',
    group_problems_of groups l s = (Ok gp, s') /\
    keys gp = keys groups /\
    concat (slices_of s' gp) = combined /\
    Forall2 (fun sl students => length sl = length students)
      (slices_of s' gp) (values groups) /\
    sum_list (map length (slices_of s' gp)) = length combined.
Proof.
  intros Hl Hwf Hsum.
  destruct (group_problems_of_run groups s l combined Hl Hwf)
    as (gp & s' & Hrun & Hkeys & Hsl & _).
  exists gp, s'. split; [done|]. split; [done|].
  rewrite Hsl. split; [|split].
  - rewrite concat_slices, Hsum. by apply take_ge.
  - pose proof (slices_full combined (sizes groups) Hsum) as Hfull.
    unfold sizes in Hfull. apply Forall2_fmap_r in Hfull. done.
  - rewrite <- length_concat, concat_slices, Hsum. by rewrite take_ge.
Qed.

Lemma partition_preserves_witness :
  exists gp s',
    group_problems_of two_groups 0 three_rows = (Ok gp, s') /\
    keys gp = keys two_groups /\
    concat (slices_of s' gp) = [["p2"]; ["p1"]; ["p1"]]%string /\
    Forall2 (fun sl students => length sl = length students)
      (slices_of s' gp) (values two_groups) /\
    sum_list (map length (slices_of s' gp))
    = length [["p2"]; ["p1"]; ["p1"]]%string.
Proof.
  apply (partition_preserves two_groups three_rows 0
           [["p2"]; ["p1"]; ["p1"]]%string).
  - reflexivity.
  - unfold dict_wf. simpl. apply NoDup_cons. split.
    + intros Hin. apply list_elem_of_singleton in Hin. discriminate.
    + apply NoDup_singleton.
  - reflexivity.
Defined.

(** C5, as the code has it. The partition step checks nothing and always
    returns: the slices, concatenated in roster order, are the first rows of
    the combined list, as many as the group sizes add up to or all of them
    if there are fewer, and the remaining rows stay in the list. *)
Theorem partition_total (groups : dict (list string)) (s : state prow)
    (l : loc) (combined : list prow) :
  heap s !! l = Some combined -> dict_wf groups ->
  exists gp s',
    group_problems_of groups l s = (Ok gp, s') /\
    keys gp = keys groups /\
    concat (slices_of s' gp) = take (sum_list (sizes groups)) combined /\
    heap s' !! l = Some (drop (sum_list (sizes groups)) combined).
Proof.
  intros Hl Hwf.
  destruct (group_problems_of_run groups s l combined Hl Hwf)
    as (gp & s' & Hrun & Hkeys & Hsl & Hrest & _).
  exists gp, s'. split; [done|]. split; [done|].
  rewrite Hsl. split; [apply concat_slices|done].
Qed.

Lemma partition_total_witness :
  exists gp s',
    group_problems_of two_groups 0 (State [[["p2"]]%string] 0) = (Ok gp, s') /\
    keys gp = keys two_groups /\
    concat (slices_of s' gp)
    = take (sum_list (sizes two_groups)) [["p2"]]%string /\
    heap s' !! 0 = Some (drop (sum_list (sizes two_groups)) [["p2"]]%string).
Proof.
  apply (partition_total two_groups (State [[["p2"]]%string] 0) 0
           [["p2"]]%string).
  - reflexivity.
  - unfold dict_wf. simpl. apply NoDup_cons. split.
    + intros Hin. apply list_elem_of_singleton in Hin. discriminate.
    + apply NoDup_singleton.
Defined.

(** C5 as the specification states it fails: with one row for three
    students, and with three rows for one student, the lengths differ and
    the step returns its slices all the same. *)
Lemma partition_mismatch_returns :
  (length [["p2"]]%string <> sum_list (sizes two_groups) /\
   group_problems_of two_groups 0 (State [[["p2"]]%string] 0)
   = (Ok [("A", 1); ("B", 2)]%string,
      State [[]; [["p2"]]; []]%string 0)) /\
  (length [["p2"]; ["p1"]; ["p1"]]%string
   <> sum_list (sizes [("B", ["Z"])]%string) /\
   group_problems_of [("B", ["Z"])]%string 0 three_rows
   = (Ok [("B", 1)]%string,
      State [[["p1"]; ["p1"]]; [["p2"]]]%string 0)).
Proof. split; (split; [simpl; lia|reflexivity]). Qed.

(** ** The row assembler *)

Section Assembler.
Variables (s : state prow) (gp : dict loc) (group : string) (g : loc)
          (tuples : list prow).
Hypothesis group_slice : dict_get group gp = Some g.
Hypothesis slice_rows : heap s !! g = Some tuples.


Lemma table_row_run (i : nat) (student : string) (t : prow) :
  tuples !! i = Some t ->
  table_row gp group i student s = (Ok (row_of i student t), s).
Proof.
  intros Ht. unfold table_row. rewrite group_slice.
  unfold bind, deref. rewrite slice_rows. simpl. by rewrite Ht.
Qed.

Lemma table_row_short (i : nat) (student : string) :
  tuples !! i = None ->
  table_row gp group i student s = (Raise IndexError, s).
Proof.
  intros Ht. unfold table_row. rewrite group_slice.
  unfold bind, deref. rewrite slice_rows. simpl. by rewrite Ht.
Qed.

(** The comprehension from position [k] on. *)
Lemma group_table_from (students : list string) :
  forall k : nat,
    k + length students <= length tuples ->
    list_comp (imap (fun i student => (k + i, student)) students)
      (fun '(i, student) => table_row gp group i student) s
    = (Ok (imap (fun i '(student, t) => row_of (k + i) student t)
             (zip students (drop k tuples))),
       s).
Proof.
  induction students as [|student students IH]; intros k Hk; [done|].
  destruct (lookup_lt_is_Some_2 tuples k) as [t Ht]; [simpl in Hk; lia|].
  rewrite (drop_S _ _ _ Ht). cbn [zip zip_with].
  rewrite !imap_cons. cbn [list_comp]. unfold bind at 1.
  rewrite Nat.add_0_r, (table_row_run _ _ t Ht). unfold bind at 1.
  rewrite (imap_ext _ (fun i student0 => (S k + i, student0)) students)
    by (intros i x _; simpl; f_equal; lia).
  rewrite (IH (S k)) by (simpl in Hk; lia).
  unfold ret. do 3 f_equal.
  apply imap_ext. intros i [x y] _. simpl.
  by replace (k + S i) with (S (k + i)) by lia.
Qed.

Lemma group_table_run (students : list string) :
  length students <= length tuples ->
  group_table gp group students s = (Ok (rows_for students tuples), s).
Proof.
  intros Hlen. unfold group_table, enumerate.
  change (imap pair students)
    with (imap (fun i student => (0 + i, student)) students).
  by rewrite (group_table_from students 0).
Qed.

(** C6. When the slice of the group has as many tuples as the group has
    students, the row-assembly step gives one row per student, in the
    order of the students: the row at index [i] holds the number [i + 1],
    the [i]-th student and then the entries of the [i]-th tuple. *)
Theorem group_table_rows (students : list string) :
  length tuples = length students ->
  exists rows,
    group_table gp group students s = (Ok rows, s) /\
    length rows = length students /\
    forall i student t,
      students !! i = Some student -> tuples !! i = Some t ->
      rows !! i = Some (CInt (Z.of_nat i + 1) :: CStr student :: map CStr t).
Proof.
  intros Hlen. rewrite group_table_run by lia.
  eexists. split; [reflexivity|]. unfold rows_for. split.
  - rewrite length_imap, length_zip_with. lia.
  - intros i student t Hs Ht.
    rewrite list_lookup_imap.
    assert (zip students tuples !! i = Some (student, t)) as ->; [|done].
    by apply lookup_zip_Some.
Qed.
End Assembler.

Lemma group_table_rows_witness :
  exists rows,
    group_table [("A", 1); ("B", 2)]%string "A"
      ["X"; "Y"]%string
      (State [[["p1"]]; [["p2"]; ["p1"]]; [["p1"]]]%string 0)
    = (Ok rows, State [[["p1"]]; [["p2"]; ["p1"]]; [["p1"]]]%string 0) /\
    length rows = length ["X"; "Y"]%string /\
    forall i student t,
      ["X"; "Y"]%string !! i = Some student ->
      [["p2"]; ["p1"]]%string !! i = Some t ->
      rows !! i = Some (CInt (Z.of_nat i + 1) :: CStr student :: map CStr t).
Proof.
  apply (group_table_rows
           (State [[["p1"]]; [["p2"]; ["p1"]]; [["p1"]]]%string 0)
           [("A", 1); ("B", 2)]%string "A"%string 1
           [["p2"]; ["p1"]]%string);
    reflexivity.
Defined.

(** ** The combiner *)

Lemma py_slice_nil {A} (start stop : option Z) :
  py_slice (@nil A) start stop = [].
Proof. unfold py_slice. simpl. by rewrite drop_nil, take_nil. Qed.

Section ZipStar.
Context {A : Type}.

(** A row of [zip_star cols] holds, column by column, the entries at its
    index. *)
Lemma zip_star_lookup (cols : list (list A)) (i : nat) (row : list A) :
  zip_star cols !! i = Some row ->
  Forall2 (fun col x => col !! i = Some x) cols row.
Proof.
  revert row. induction cols as [|c cs IH]; intros row Hrow; [done|].
  destruct cs as [|c' cs].
  - simpl in Hrow. rewrite list_lookup_fmap in Hrow.
    destruct (c !! i) as [x|] eqn:Hx; [|done].
    simpl in Hrow. injection Hrow as <-. by repeat constructor.
  - change (zip_star (c :: c' :: cs))
      with (zip_with cons c (zip_star (c' :: cs))) in Hrow.
    apply lookup_zip_with_Some in Hrow as (x & y & -> & Hx & Hy).
    constructor; [done|]. by apply IH.
Qed.

Lemma length_zip_star (cols : list (list A)) (n : nat) :
  cols <> [] -> Forall (fun col => length col = n) cols ->
  length (zip_star cols) = n.
Proof.
  induction cols as [|c cs IH]; intros Hne Hall; [done|].
  apply Forall_cons in Hall as [Hc Hcs].
  destruct cs as [|c' cs].
  - simpl. by rewrite length_map.
  - change (zip_star (c :: c' :: cs))
      with (zip_with cons c (zip_star (c' :: cs))).
    rewrite length_zip_with, IH by done. lia.
Qed.
End ZipStar.

Section Combiner.
Context {T : Type}.
Variable shuffle_draw : nat -> list T -> list T.
Variable total : Z.



Lemma point_to_frame (s s' : state T) (pg : list loc) (sets : list (list T)) :
  (forall l v, heap s !! l = Some v -> heap s' !! l = Some v) ->
  point_to s pg sets -> point_to s' pg sets.
Proof.
  intros Hframe Hpt. unfold point_to in *.
  eapply Forall2_impl; [exact Hpt|]. intros p ps Hp. by apply Hframe.
Qed.

(** The allocations of the problem-sets, one after the other. *)
Lemma assign_all_run (pg : list loc) (sets : list (list T)) :
  forall s : state T,
    point_to s pg sets -> Forall (fun ps => ps <> []) sets ->
    exists locs cols s',
      list_comp pg (fun p => assign_problems shuffle_draw p total) s
      = (Ok locs, s') /\
      point_to s' locs cols /\
      Forall2 (allocation_of shuffle_draw total) sets cols /\
      forall l v, heap s !! l = Some v -> heap s' !! l = Some v.
Proof.
  revert sets. induction pg as [|p pg IH]; intros sets s Hpt Hne.
  - apply Forall2_nil_inv_l in Hpt as ->.
    exists [], [], s. repeat split; by try constructor.
  - apply Forall2_cons_inv_l in Hpt as (ps & sets' & Hp & Hpt & ->).
    apply Forall_cons in Hne as [Hps Hne].
    destruct (assign_problems_returns shuffle_draw s p ps total Hp Hps)
      as (r & s1 & Hrun & Hout & _ & Hframe1).
    destruct (IH sets' s1 (point_to_frame s s1 pg sets' Hframe1 Hpt) Hne)
      as (locs & cols & s2 & Hrest & Hlocs & Hcols & Hframe2).
    eexists (r :: locs), (_ :: cols), s2.
    cbn [list_comp]. unfold bind at 1. rewrite Hrun.
    unfold bind at 1. rewrite Hrest. unfold ret.
    split; [done|]. split; [|split].
    + constructor; [by apply Hframe2|done].
    + constructor; [by exists (rng s)|done].
    + intros l v Hl. by apply Hframe2, Hframe1.
Qed.

(** The allocation stops at the first empty problem-set. *)
Lemma assign_all_raises (pg : list loc) (sets : list (list T)) :
  forall s : state T,
    point_to s pg sets -> Exists (fun ps => ps = []) sets ->
    exists s',
      list_comp pg (fun p => assign_problems shuffle_draw p total) s
      = (Raise ZeroDivisionError, s').
Proof.
  revert sets. induction pg as [|p pg IH]; intros sets s Hpt Hex.
  - apply Forall2_nil_inv_l in Hpt as ->. by apply Exists_nil in Hex.
  - apply Forall2_cons_inv_l in Hpt as (ps & sets' & Hp & Hpt & ->).
    cbn [list_comp]. unfold bind at 1.
    destruct (decide (ps = [])) as [->|Hps].
    + rewrite assign_problems_empty by by rewrite Hp. by exists s.
    + apply Exists_cons in Hex as [Hex|Hex]; [done|].
      destruct (assign_problems_returns shuffle_draw s p ps total Hp Hps)
        as (r & s1 & Hrun & _ & _ & Hframe1).
      rewrite Hrun.
      destruct (IH sets' s1 (point_to_frame s s1 pg sets' Hframe1 Hpt) Hex)
        as (s2 & Hrest).
      unfold bind at 1. rewrite Hrest. by exists s2.
Qed.

Lemma deref_all_run (locs : list loc) (cols : list (list T)) (s : state T) :
  point_to s locs cols -> list_comp locs deref s = (Ok cols, s).
Proof.
  induction 1 as [|r col locs cols Hr _ IH]; [done|].
  cbn [list_comp]. unfold bind at 1, deref at 1. rewrite Hr. simpl.
  unfold bind at 1. by rewrite IH.
Qed.

(** What the combiner returns on non-empty problem-sets. *)
Lemma combine_run (pg : list loc) (sets : list (list T)) (s : state T) :
  point_to s pg sets -> Forall (fun ps => ps <> []) sets ->
  exists cols s',
    combine shuffle_draw pg total s = (Ok (zip_star cols), s') /\
    Forall2 (allocation_of shuffle_draw total) sets cols.
Proof.
  intros Hpt Hne.
  destruct (assign_all_run pg sets s Hpt Hne)
    as (locs & cols & s' & Hrun & Hlocs & Hcols & _).
  exists cols, s'. split; [|done].
  unfold combine, bind at 1. rewrite Hrun.
  unfold bind at 1. by rewrite (deref_all_run locs cols s' Hlocs).
Qed.
End Combiner.


Section CombinerClaims.
Context {T : Type}.
Variable shuffle_draw : nat -> list T -> list T.



Hypothesis shuffle_perm : forall g v, shuffle_draw g v ≡ₚ v.

Lemma allocation_length (total : Z) (ps col : list T) :
  ps <> [] -> (0 <= total)%Z ->
  allocation_of shuffle_draw total ps col -> length col = Z.to_nat total.
Proof.
  intros Hne Ht [g ->]. rewrite py_slice_prefix, length_take by done.
  pose proof (length_concat_blocks shuffle_draw shuffle_perm g ps total
                Hne Ht). lia.
Qed.

Lemma allocations_length (total : Z) (sets cols : list (list T)) :
  Forall (fun ps => ps <> []) sets -> (0 <= total)%Z ->
  Forall2 (allocation_of shuffle_draw total) sets cols ->
  Forall (fun col => length col = Z.to_nat total) cols.
Proof.
  intros Hne Ht Hcols.
  induction Hcols as [|ps col sets cols Hcol _ IH]; [constructor|].
  apply Forall_cons in Hne as [Hps Hne].
  constructor; [|by apply IH].
  by apply (allocation_length total ps col).
Qed.

(** C7, as the code has it. For a non-empty list of non-empty
    problem-sets and a total that is not negative, the combiner returns
    [total] rows; every row has one entry per problem-set, and its entry
    at [j] is the entry, at the index of the row, of what [assign_problems]
    returned for the problem-set at [j]. *)
Theorem combine_rows (s : state T) (problem_groups : list loc)
    (sets : list (list T)) (total : Z) :
  point_to s problem_groups sets ->
  sets <> [] -> Forall (fun ps => ps <> []) sets -> (0 <= total)%Z ->
  exists rows cols s',
    combine shuffle_draw problem_groups total s = (Ok rows, s') /\
    Z.of_nat (length rows) = total /\
    Forall2 (allocation_of shuffle_draw total) sets cols /\
    forall i row,
      rows !! i = Some row ->
      length row = length sets /\
      Forall2 (fun col x => col !! i = Some x) cols row.
Proof.
  intros Hpt Hsets Hne Ht.
  destruct (combine_run shuffle_draw total problem_groups sets s Hpt Hne)
    as (cols & s' & Hrun & Hcols).
  exists (zip_star cols), cols, s'. split; [done|].
  pose proof (allocations_length total sets cols Hne Ht Hcols) as Hlen.
  split; [|split; [done|]].
  - rewrite (length_zip_star cols (Z.to_nat total)); [lia| |done].
    intros ->. apply Forall2_nil_inv_r in Hcols. done.
  - intros i row Hrow. pose proof (zip_star_lookup cols i row Hrow) as Hr.
    split; [|done].
    rewrite <- (Forall2_length _ _ _ Hr). symmetry.
    by apply (Forall2_length _ _ _ Hcols).
Qed.
End CombinerClaims.




Lemma combine_rows_witness :
  exists rows cols s',
    combine flip_even [0; 0] 3 two_problems = (Ok rows, s') /\
    Z.of_nat (length rows) = 3%Z /\
    Forall2 (allocation_of flip_even 3)
      [["p1"; "p2"]; ["p1"; "p2"]]%string cols /\
    forall i row,
      rows !! i = Some row ->
      length row = length [["p1"; "p2"]; ["p1"; "p2"]]%string /\
      Forall2 (fun col x => col !! i = Some x) cols row.
Proof.
  apply (combine_rows flip_even flip_even_perm two_problems [0; 0]
           [["p1"; "p2"]; ["p1"; "p2"]]%string 3).
  - repeat constructor.
  - discriminate.
  - repeat constructor; discriminate.
  - lia.
Defined.

(** C7 as the specification states it fails on an empty list of
    problem-sets: for three students the combiner returns no row. *)
Lemma combine_no_rows :
  combine keep_order [] 3 two_problems = (Ok [], two_problems) /\
  Z.of_nat (length (@nil (list string))) <> 3%Z.
Proof. split; [reflexivity|simpl; lia]. Qed.

(** * The whole of [make_group_tables] *)

Lemma dict_get_lookup {V} (d : dict V) (i : nat) (k : string) (v : V) :
  dict_wf d -> d !! i = Some (k, v) -> dict_get k d = Some v.
Proof.
  unfold dict_wf. revert i.
  induction d as [|[k' v'] d IH]; intros i Hnd Hi; [done|].
  simpl in Hnd. apply NoDup_cons in Hnd as [Hk Hnd].
  destruct i as [|i]; simpl in *.
  - injection Hi as -> ->. by rewrite decide_True.
  - destruct (decide (k = k')) as [->|Hne]; [|by apply (IH i)].
    exfalso. apply Hk. apply list_elem_of_fmap. exists (k', v).
    split; [done|]. by apply list_elem_of_lookup_2 with i.
Qed.

Section EndToEnd.
Variables (s : state prow) (gp : dict loc).

Lemma table_data_run (groups : dict (list string)) :
  forall (sls : list (list prow)) (acc : dict (list (list cell))),
    NoDup (keys groups) ->
    (forall k, k ∈ keys groups -> k ∉ keys acc) ->
    Forall2 (served s gp) groups sls ->
    dict_comp groups (fun group students => group_table gp group students)
      acc s
    = (Ok (acc ++ zip_with (fun '(group, students) sl =>
                              (group, rows_for students sl)) groups sls),
       s).
Proof.
  induction groups as [|[k students] groups IH]; intros sls acc Hnd Hacc Hall.
  - apply Forall2_nil_inv_l in Hall as ->. simpl. by rewrite app_nil_r.
  - apply Forall2_cons_inv_l in Hall
      as (sl & sls' & (g & Hg & Hsl & Hlen) & Hall & ->).
    simpl in Hg, Hlen. cbn [dict_comp]. unfold bind at 1.
    rewrite (group_table_run s gp k g sl Hg Hsl students Hlen).
    simpl in Hnd. apply NoDup_cons in Hnd as [Hk Hnd].
    rewrite dict_set_fresh by (apply Hacc; simpl; by left).
    rewrite (IH sls'); [|done| |done].
    + simpl. by rewrite <- (assoc_L (++)).
    + intros k' Hk'. rewrite keys_app. simpl.
      apply not_elem_of_app. split.
      * apply Hacc. simpl. by right.
      * apply not_elem_of_cons. split; [|apply not_elem_of_nil].
        intros ->. done.
Qed.

Lemma slices_served (groups : dict (list string)) (sls : list (list prow)) :
  dict_wf groups -> keys gp = keys groups ->
  point_to s (values gp) sls ->
  Forall2 (fun sl n => length sl = n) sls (sizes groups) ->
  Forall2 (served s gp) groups sls.
Proof.
  intros Hwf Hkeys Hpt Hlen.
  apply Forall2_same_length_lookup_2.
  - apply Forall2_length in Hlen. unfold sizes, values in Hlen.
    rewrite !length_map in Hlen. done.
  - intros i [group students] sl Hi Hsl.
    destruct (Forall2_lookup_r _ _ _ _ _ Hpt Hsl) as (g & Hg & Hheap).
    unfold values in Hg. rewrite list_lookup_fmap in Hg.
    apply fmap_Some in Hg as ([k g'] & Hgp & ->). simpl in Hheap.
    assert (k = group) as ->.
    { assert (keys gp !! i = Some k) as Hk
        by (unfold keys; by rewrite list_lookup_fmap, Hgp).
      rewrite Hkeys in Hk. unfold keys in Hk.
      rewrite list_lookup_fmap, Hi in Hk. by injection Hk as <-. }
    exists g'. split; [|split; [done|]].
    + apply (dict_get_lookup gp i); [|done].
      unfold dict_wf. by rewrite Hkeys.
    + assert (sizes groups !! i = Some (length students)) as Hn
        by (unfold sizes, values; by rewrite !list_lookup_fmap, Hi).
      pose proof (Forall2_lookup_lr _ _ _ _ _ _ Hlen Hsl Hn) as Heq.
      simpl in *. lia.
Qed.
End EndToEnd.

Section MakeGroupTables.
Variable shuffle_draw : nat -> list string -> list string.
Hypothesis shuffle_perm : forall g v, shuffle_draw g v ≡ₚ v.

(** The run on a roster without a repeated group name and a non-empty
    list of non-empty problem-sets. *)
Lemma make_group_tables_run (groups : dict (list string))
    (problem_groups : list loc) (sets : list (list string))
    (s : state string) :
  dict_wf groups -> point_to s problem_groups sets ->
  sets <> [] -> Forall (fun ps => ps <> []) sets ->
  exists cols s',
    make_group_tables shuffle_draw groups problem_groups s
    = (Ok (tables_of groups (zip_star cols)), s') /\
    Forall2
      (allocation_of shuffle_draw (Z.of_nat (sum_list (sizes groups))))
      sets cols /\
    Forall (fun col => length col = sum_list (sizes groups)) cols.
Proof.
  intros Hwf Hpt Hsets Hne. unfold make_group_tables.
  change (map length (values groups)) with (sizes groups).
  set (total := Z.of_nat (sum_list (sizes groups))).
  destruct (combine_run shuffle_draw total problem_groups sets s Hpt Hne)
    as (cols & s' & Hrun & Hcols).
  assert (Forall (fun col => length col = sum_list (sizes groups)) cols)
    as Hcol.
  { replace (sum_list (sizes groups)) with (Z.to_nat total)
      by (unfold total; lia).
    apply (allocations_length shuffle_draw shuffle_perm total sets);
      [done|unfold total; lia|done]. }
  exists cols, s'. split; [|done].
  unfold bind at 1. rewrite Hrun. unfold in_row_store. f_equal.
  assert (length (zip_star cols) = sum_list (sizes groups)) as Hlen.
  { apply length_zip_star; [|done].
    intros ->. apply Forall2_nil_inv_r in Hcols. done. }
  unfold bind at 1, new_list. simpl.
  destruct (group_problems_of_run groups (State [zip_star cols] 0) 0
              (zip_star cols) eq_refl Hwf)
    as (gp & s'' & Hgp & Hkeys & _ & _ & Hpt').
  unfold bind at 1. rewrite Hgp. unfold table_data_of.
  rewrite (table_data_run s'' gp groups
             (slices (zip_star cols) (sizes groups)) []); [done|done|..].
  - intros k _. apply not_elem_of_nil.
  - apply slices_served; try done. by apply slices_full.
Qed.

(** The whole function. On a roster without a repeated group name and a
    non-empty list of non-empty problem-sets, [make_group_tables] returns
    the tables of the roster over the transposed allocations: group after
    group, in roster order, the rows numbered from 1 of the group's
    students with the next rows of [problems_assigned]. *)
Theorem make_group_tables_tables (groups : dict (list string))
    (problem_groups : list loc) (sets : list (list string))
    (s : state string) :
  dict_wf groups -> point_to s problem_groups sets ->
  sets <> [] -> Forall (fun ps => ps <> []) sets ->
  exists cols s',
    make_group_tables shuffle_draw groups problem_groups s
    = (Ok (tables_of groups (zip_star cols)), s') /\
    Forall2
      (allocation_of shuffle_draw (Z.of_nat (sum_list (sizes groups))))
      sets cols.
Proof.
  intros Hwf Hpt Hsets Hne.
  destruct (make_group_tables_run groups problem_groups sets s Hwf Hpt
              Hsets Hne) as (cols & s' & Hrun & Hcols & _).
  by exists cols, s'.
Qed.
End MakeGroupTables.

Lemma make_group_tables_tables_witness :
  exists cols s',
    make_group_tables flip_even two_groups [0] two_problems
    = (Ok (tables_of two_groups (zip_star cols)), s') /\
    Forall2 (allocation_of flip_even 3) [["p1"; "p2"]]%string cols.
Proof.
  apply (make_group_tables_tables flip_even flip_even_perm two_groups [0]
           [["p1"; "p2"]]%string two_problems).
  - unfold dict_wf. simpl. apply NoDup_ListNoDup.
    repeat constructor; simpl; intuition discriminate.
  - by repeat constructor.
  - done.
  - by repeat constructor.
Defined.

(** The example run: groups A (X, Y) and B (Z), one problem-set p1, p2, and
    a shuffle that reverses the first block. *)
Example make_group_tables_example :
  fst (make_group_tables flip_even two_groups [0] two_problems)
  = Ok [("A", [[CInt 1; CStr "X"; CStr "p2"]; [CInt 2; CStr "Y"; CStr "p1"]]);
        ("B", [[CInt 1; CStr "Z"; CStr "p1"]])]%string.
Proof. reflexivity. Qed.

(** Without any problem-set there is no row to take: the first student's
    row raises [IndexError]. *)
Example make_group_tables_no_sets :
  fst (make_group_tables flip_even two_groups [] two_problems)
  = Raise IndexError.
Proof. reflexivity. Qed.

(** * The allocator beyond the specification *)

Lemma elem_of_py_slice {A} (l : list A) (start stop : option Z) (x : A) :
  x ∈ py_slice l start stop -> x ∈ l.
Proof.
  unfold py_slice. destruct (slice_bounds _ _ _) as [lo hi]. intros Hx.
  eapply elem_of_sublist; [apply Hx|].
  etrans; [apply sublist_take|apply sublist_drop].
Qed.

Lemma ceil_quot_multiple (q k : Z) : (0 < k)%Z -> ceil_quot (q * k) k = q.
Proof.
  intros Hk. unfold ceil_quot.
  rewrite <- Z.mul_opp_l, Z.div_mul by lia. lia.
Qed.

Lemma elem_of_concat_shuffled {T} (ps : list T) (bs : list (list T)) (x : T) :
  shuffled ps bs -> x ∈ concat bs -> x ∈ ps.
Proof.
  induction 1 as [|b bs Hb _ IH]; simpl; [by intros ?%elem_of_nil|].
  intros [Hx|Hx]%elem_of_app; [by rewrite <- Hb|by apply IH].
Qed.

Lemma concat_shuffled_copies {T} (ps : list T) (bs : list (list T)) :
  shuffled ps bs -> concat bs ≡ₚ concat (replicate (length bs) ps).
Proof.
  induction 1 as [|b bs Hb _ IH]; simpl; [done|]. by rewrite Hb, IH.
Qed.

Section AllocatorEdges.
Context {T : Type}.
Variable shuffle_draw : nat -> list T -> list T.

(** An empty problem list stops the call at the division, whatever
    [students_n] is: [ZeroDivisionError], nothing allocated and no shuffle
    drawn. *)
Theorem assign_problems_zero_division (s : state T) (problems : loc)
    (students_n : Z) :
  heap s !! problems = Some [] ->
  assign_problems shuffle_draw problems students_n s
  = (Raise ZeroDivisionError, s).
Proof.
  intros Hp. apply assign_problems_empty. by rewrite Hp.
Qed.

(** For a count that is zero or negative the call on a non-empty list
    returns an empty list, without drawing a shuffle. *)
Theorem assign_problems_nothing (s : state T) (problems : loc)
    (ps : list T) (students_n : Z) :
  heap s !! problems = Some ps -> ps <> [] -> (students_n <= 0)%Z ->
  exists r s',
    assign_problems shuffle_draw problems students_n s = (Ok r, s') /\
    heap s' !! r = Some [] /\
    rng s' = rng s.
Proof.
  intros Hp Hne Hn.
  destruct (assign_problems_returns shuffle_draw s problems ps students_n
              Hp Hne) as (r & s' & Hrun & Hout & Hrng & _).
  assert (0 < Z.of_nat (length ps))%Z as Hk
    by (destruct ps; simpl; [done|lia]).
  assert (block_count ps students_n = 0) as Hbc.
  { unfold block_count.
    pose proof (ceil_quot_nonpos students_n _ Hk Hn). lia. }
  rewrite Hbc in Hout, Hrng. simpl in Hout. rewrite py_slice_nil in Hout.
  exists r, s'. split; [done|]. split; [done|lia].
Qed.

(** What a call on a non-empty list does to the store: the list it
    returns is a new object, every list that was there keeps its
    contents, and [ceil(students_n / len(problems))] shuffles are drawn. *)
Theorem assign_problems_effects (s : state T) (problems : loc)
    (ps : list T) (students_n : Z) :
  heap s !! problems = Some ps -> ps <> [] ->
  exists r s',
    assign_problems shuffle_draw problems students_n s = (Ok r, s') /\
    length (heap s) <= r /\
    r < length (heap s') /\
    rng s' =
      rng s + Z.to_nat (ceil_quot students_n (Z.of_nat (length ps))) /\
    forall l v, heap s !! l = Some v -> heap s' !! l = Some v.
Proof.
  intros Hp Hne.
  rewrite (assign_problems_run shuffle_draw problems students_n s ps Hp Hne).
  eexists _, _. split; [reflexivity|]. simpl.
  split; [lia|]. split; [|split; [done|]].
  - rewrite length_app. simpl. rewrite length_app, length_blocks_from.
    simpl. lia.
  - intros l v Hl. by apply lookup_app_l_Some.
Qed.

Hypothesis shuffle_perm : forall g v, shuffle_draw g v ≡ₚ v.

(** Every element of the result is an element of the problem list: the
    call hands out nothing but the problems it was given. *)
Theorem assign_problems_from_list (s : state T) (problems : loc)
    (ps : list T) (students_n : Z) :
  heap s !! problems = Some ps -> ps <> [] ->
  exists r s' out,
    assign_problems shuffle_draw problems students_n s = (Ok r, s') /\
    heap s' !! r = Some out /\
    forall x, x ∈ out -> x ∈ ps.
Proof.
  intros Hp Hne.
  destruct (assign_problems_returns shuffle_draw s problems ps students_n
              Hp Hne) as (r & s' & Hrun & Hout & _).
  eexists r, s', _. split; [done|]. split; [done|].
  intros x Hx%elem_of_py_slice.
  apply (elem_of_concat_shuffled ps _ x) in Hx; [done|].
  by apply blocks_from_shuffled.
Qed.

(** A count that is a multiple of the length of the list is served by
    whole blocks: the result is a rearrangement of [q] copies of the
    problem list, so every problem gets exactly its share. *)
Theorem assign_problems_even (s : state T) (problems : loc)
    (ps : list T) (q : nat) :
  heap s !! problems = Some ps -> ps <> [] ->
  exists r s' out,
    assign_problems shuffle_draw problems (Z.of_nat (q * length ps)) s
    = (Ok r, s') /\
    heap s' !! r = Some out /\
    out ≡ₚ concat (replicate q ps).
Proof.
  intros Hp Hne.
  destruct (assign_problems_result shuffle_draw s problems ps
              (Z.of_nat (q * length ps)) Hp Hne ltac:(lia))
    as (r & s' & Hrun & Hout & _).
  eexists r, s', _. split; [done|]. split; [done|].
  assert (0 < Z.of_nat (length ps))%Z as Hk
    by (destruct ps; simpl; [done|lia]).
  assert (block_count ps (Z.of_nat (q * length ps)) = q) as ->.
  { unfold block_count. rewrite Nat2Z.inj_mul, ceil_quot_multiple by done.
    lia. }
  pose proof (blocks_from_shuffled shuffle_draw shuffle_perm (rng s) q ps)
    as Hbs.
  rewrite take_ge.
  - rewrite (concat_shuffled_copies ps _ Hbs). by rewrite length_blocks_from.
  - rewrite (length_concat_shuffled ps _ Hbs), length_blocks_from. lia.
Qed.
End AllocatorEdges.

Lemma assign_problems_zero_division_witness :
  assign_problems flip_even 1 3 with_empty_set
  = (Raise ZeroDivisionError, with_empty_set).
Proof.
  apply (assign_problems_zero_division flip_even with_empty_set 1 3).
  reflexivity.
Defined.

Lemma assign_problems_nothing_witness :
  exists r s',
    assign_problems flip_even 0 (-1) two_problems = (Ok r, s') /\
    heap s' !! r = Some [] /\
    rng s' = rng two_problems.
Proof.
  apply (assign_problems_nothing flip_even two_problems 0
           ["p1"; "p2"]%string (-1));
    [reflexivity | discriminate | lia].
Defined.

Lemma assign_problems_effects_witness :
  exists r s',
    assign_problems flip_even 0 3 two_problems = (Ok r, s') /\
    length (heap two_problems) <= r /\
    r < length (heap s') /\
    rng s' =
      rng two_problems
      + Z.to_nat (ceil_quot 3 (Z.of_nat (length ["p1"; "p2"]%string))) /\
    forall l v, heap two_problems !! l = Some v -> heap s' !! l = Some v.
Proof.
  apply (assign_problems_effects flip_even two_problems 0
           ["p1"; "p2"]%string 3);
    [reflexivity | discriminate].
Defined.

Lemma assign_problems_from_list_witness :
  exists r s' out,
    assign_problems flip_even 0 3 two_problems = (Ok r, s') /\
    heap s' !! r = Some out /\
    forall x, x ∈ out -> x ∈ ["p1"; "p2"]%string.
Proof.
  apply (assign_problems_from_list flip_even flip_even_perm two_problems 0
           ["p1"; "p2"]%string 3);
    [reflexivity | discriminate].
Defined.

Lemma assign_problems_even_witness :
  exists r s' out,
    assign_problems flip_even 0
      (Z.of_nat (2 * length ["p1"; "p2"]%string)) two_problems
    = (Ok r, s') /\
    heap s' !! r = Some out /\
    out ≡ₚ concat (replicate 2 ["p1"; "p2"]%string).
Proof.
  apply (assign_problems_even flip_even flip_even_perm two_problems 0
           ["p1"; "p2"]%string 2);
    [reflexivity | discriminate].
Defined.

(** * [slice_pop] with any bounds *)

Lemma norm_index_range (len i : Z) :
  (0 <= len)%Z -> (0 <= norm_index len i <= len)%Z.
Proof. intros Hlen. unfold norm_index. destruct (Z.ltb_spec i 0); lia. Qed.

Lemma slice_bounds_le (len : nat) (start stop : option Z) :
  (slice_bounds len start stop).1 <= len /\
  (slice_bounds len start stop).2 <= len.
Proof.
  unfold slice_bounds. simpl.
  split; [destruct start as [i|]|destruct stop as [i|]]; simpl; try lia;
    pose proof (norm_index_range (Z.of_nat len) i ltac:(lia)); lia.
Qed.

(** Deleting a slice takes out the elements of the slice and no other:
    put back at its place, the slice restores the list. *)
Lemma py_slice_del_conserve {A} (l : list A) (start stop : option Z) :
  let lo := (slice_bounds (length l) start stop).1 in
  l = take lo (py_del_slice l start stop)
      ++ py_slice l start stop
      ++ drop lo (py_del_slice l start stop).
Proof.
  pose proof (slice_bounds_le (length l) start stop) as [Hlo Hhi].
  unfold py_slice, py_del_slice.
  destruct (slice_bounds (length l) start stop) as [lo hi]. simpl in *.
  rewrite take_app_length' by (rewrite length_take; lia).
  rewrite drop_app_length' by (rewrite length_take; lia).
  destruct (decide (hi <= lo)) as [Hle|Hgt].
  - replace (hi - lo) with 0 by lia. replace (lo `max` hi) with lo by lia.
    rewrite take_0. simpl. by rewrite take_drop.
  - replace (lo `max` hi) with (lo + (hi - lo)) by lia.
    rewrite <- drop_drop, take_drop. by rewrite take_drop.
Qed.

Lemma py_slice_range {A} (l : list A) (a b : Z) :
  (0 <= a <= b)%Z -> (b <= Z.of_nat (length l))%Z ->
  py_slice l (Some a) (Some b)
  = take (Z.to_nat b - Z.to_nat a) (drop (Z.to_nat a) l) /\
  py_del_slice l (Some a) (Some b)
  = take (Z.to_nat a) l ++ drop (Z.to_nat b) l.
Proof.
  intros Hab Hb. unfold py_slice, py_del_slice, slice_bounds, norm_index.
  simpl. destruct (Z.ltb_spec a 0); [lia|]. destruct (Z.ltb_spec b 0); [lia|].
  rewrite !Z.min_l by lia.
  by replace (Z.to_nat a `max` Z.to_nat b) with (Z.to_nat b) by lia.
Qed.

Lemma py_slice_from_end {A} (l : list A) (a : Z) :
  (a < 0)%Z ->
  py_slice l None (Some a) = take (length l - Z.to_nat (- a)) l /\
  py_del_slice l None (Some a) = drop (length l - Z.to_nat (- a)) l.
Proof.
  intros Ha. unfold py_slice, py_del_slice, slice_bounds, norm_index.
  simpl. destruct (Z.ltb_spec a 0); [|lia].
  change (Z.to_nat 0) with 0. rewrite Nat.sub_0_r, drop_0. simpl.
  by replace (Z.to_nat (Z.max (a + Z.of_nat (length l)) 0))
    with (length l - Z.to_nat (- a)) by lia.
Qed.

Section SlicePopBounds.
Context {T : Type}.

(** A call with any bounds: the slice is a new list at the end of the
    store, and [l] holds what the deletion leaves. *)
Lemma slice_pop_run_bounds (l : loc) (a : Z) (b : option Z) (s : state T)
    (v : list T) :
  heap s !! l = Some v ->
  let '(start, stop) :=
    match b with
    | None => (None, Some a)
    | Some b' => (Some a, Some b')
    end in
  slice_pop l a b s
  = (Ok (length (heap s)),
     State (<[l := py_del_slice v start stop]> (heap s)
              ++ [py_slice v start stop])
           (rng s)).
Proof.
  intros Hl.
  destruct b as [b|];
    unfold slice_pop, list_getslice, list_delslice, bind, deref, new_list,
      store, ret; simpl;
    rewrite Hl; simpl; rewrite (lookup_app_l_Some _ _ _ _ Hl); simpl;
    by rewrite insert_app_l by (by eapply lookup_lt_Some).
Qed.

(** Whatever the bounds, negative or out of range, [slice_pop] returns:
    it raises nothing, loses no element and repeats none.  The slice it
    returns, put back at some place [lo] of what it leaves in [l], gives
    the old contents of [l]. *)
Theorem slice_pop_conserves (s : state T) (l : loc) (v : list T) (a : Z)
    (b : option Z) :
  heap s !! l = Some v ->
  exists r s' l_slice rest lo,
    slice_pop l a b s = (Ok r, s') /\
    r <> l /\
    heap s' !! r = Some l_slice /\
    heap s' !! l = Some rest /\
    v = take lo rest ++ l_slice ++ drop lo rest /\
    length l_slice + length rest = length v.
Proof.
  intros Hl. pose proof (lookup_lt_Some _ _ _ Hl) as Hlt.
  pose proof (slice_pop_run_bounds l a b s v Hl) as Hrun.
  set (bounds := match b with
                 | None => (None, Some a)
                 | Some b' => (Some a, Some b')
                 end) in Hrun.
  destruct bounds as [start stop]. rewrite Hrun.
  pose proof (py_slice_del_conserve v start stop) as Hv. simpl in Hv.
  eexists _, _, _, _, _. split; [reflexivity|]. simpl.
  split; [lia|]. split; [|split; [|split; [exact Hv|]]].
  - rewrite <- (length_insert (heap s) l (py_del_slice v start stop)).
    apply lookup_end.
  - rewrite lookup_app_l by by rewrite length_insert.
    by apply list_lookup_insert_eq.
  - pose proof (f_equal length Hv) as Hlen. rewrite !length_app in Hlen.
    pose proof (f_equal length
                  (take_drop (slice_bounds (length v) start stop).1
                     (py_del_slice v start stop))) as Hrest.
    rewrite length_app in Hrest. simpl in Hrest. lia.
Qed.

(** The two-argument form inside the list: [slice_pop(l, a, b)] with
    [0 <= a <= b <= len(l)] returns [l[a:b]] and leaves [l[:a] + l[b:]]. *)
Theorem slice_pop_range (s : state T) (l : loc) (v : list T) (a b : Z) :
  heap s !! l = Some v ->
  (0 <= a <= b)%Z -> (b <= Z.of_nat (length v))%Z ->
  exists r s',
    slice_pop l a (Some b) s = (Ok r, s') /\
    heap s' !! r
    = Some (take (Z.to_nat b - Z.to_nat a) (drop (Z.to_nat a) v)) /\
    heap s' !! l = Some (take (Z.to_nat a) v ++ drop (Z.to_nat b) v).
Proof.
  intros Hl Hab Hb. pose proof (lookup_lt_Some _ _ _ Hl) as Hlt.
  rewrite (slice_pop_run_bounds l a (Some b) s v Hl).
  destruct (py_slice_range v a b Hab Hb) as [-> ->].
  eexists _, _. split; [reflexivity|]. simpl. split.
  - rewrite <- (length_insert (heap s) l
                  (take (Z.to_nat a) v ++ drop (Z.to_nat b) v)).
    apply lookup_end.
  - rewrite lookup_app_l by by rewrite length_insert.
    by apply list_lookup_insert_eq.
Qed.

(** A negative count is counted from the end: [slice_pop(l, a)] with
    [a < 0] returns all but the last [-a] elements and leaves those in
    [l]; when [l] has no more than [-a] elements it returns the empty list
    and leaves [l] as it was. *)
Theorem slice_pop_from_end (s : state T) (l : loc) (v : list T) (a : Z) :
  heap s !! l = Some v -> (a < 0)%Z ->
  exists r s',
    slice_pop l a None s = (Ok r, s') /\
    heap s' !! r = Some (take (length v - Z.to_nat (- a)) v) /\
    heap s' !! l = Some (drop (length v - Z.to_nat (- a)) v).
Proof.
  intros Hl Ha. pose proof (lookup_lt_Some _ _ _ Hl) as Hlt.
  rewrite (slice_pop_run_bounds l a None s v Hl).
  destruct (py_slice_from_end v a Ha) as [-> ->].
  eexists _, _. split; [reflexivity|]. simpl. split.
  - rewrite <- (length_insert (heap s) l
                  (drop (length v - Z.to_nat (- a)) v)).
    apply lookup_end.
  - rewrite lookup_app_l by by rewrite length_insert.
    by apply list_lookup_insert_eq.
Qed.
End SlicePopBounds.

Lemma slice_pop_conserves_witness :
  exists r s' l_slice rest lo,
    slice_pop 0 (-2) (Some 7%Z) (State [[1; 2; 3]] 0) = (Ok r, s') /\
    r <> 0 /\
    heap s' !! r = Some l_slice /\
    heap s' !! 0 = Some rest /\
    [1; 2; 3] = take lo rest ++ l_slice ++ drop lo rest /\
    length l_slice + length rest = length [1; 2; 3].
Proof.
  apply (slice_pop_conserves (State [[1; 2; 3]] 0) 0 [1; 2; 3] (-2)
           (Some 7%Z)).
  reflexivity.
Defined.

Lemma slice_pop_range_witness :
  exists r s',
    slice_pop 0 1 (Some 2%Z) (State [[1; 2; 3]] 0) = (Ok r, s') /\
    heap s' !! r
    = Some (take (Z.to_nat 2 - Z.to_nat 1) (drop (Z.to_nat 1) [1; 2; 3])) /\
    heap s' !! 0 = Some (take (Z.to_nat 1) [1; 2; 3]
                         ++ drop (Z.to_nat 2) [1; 2; 3]).
Proof.
  apply (slice_pop_range (State [[1; 2; 3]] 0) 0 [1; 2; 3] 1 2);
    [reflexivity | lia | simpl; lia].
Defined.

Lemma slice_pop_from_end_witness :
  exists r s',
    slice_pop 0 (-1) None (State [[1; 2; 3]] 0) = (Ok r, s') /\
    heap s' !! r = Some (take (length [1; 2; 3] - Z.to_nat (- -1)) [1; 2; 3]) /\
    heap s' !! 0 = Some (drop (length [1; 2; 3] - Z.to_nat (- -1)) [1; 2; 3]).
Proof.
  apply (slice_pop_from_end (State [[1; 2; 3]] 0) 0 [1; 2; 3] (-1));
    [reflexivity | lia].
Defined.

(** * Rows for a slice of any length *)

Section AssemblerBounds.
Variables (s : state prow) (gp : dict loc) (group : string) (g : loc)
          (tuples : list prow).
Hypothesis group_slice : dict_get group gp = Some g.
Hypothesis slice_rows : heap s !! g = Some tuples.

(** The comprehension from position [k] on, when the tuples run out. *)
Lemma group_table_short_from (students : list string) :
  forall k : nat,
    k <= length tuples -> length tuples < k + length students ->
    list_comp (imap (fun i student => (k + i, student)) students)
      (fun '(i, student) => table_row gp group i student) s
    = (Raise IndexError, s).
Proof.
  induction students as [|student students IH]; intros k Hk Hlen;
    [simpl in Hlen; lia|].
  rewrite imap_cons. cbn [list_comp]. unfold bind at 1.
  rewrite Nat.add_0_r.
  destruct (tuples !! k) as [t|] eqn:Ht.
  - rewrite (table_row_run s gp group g tuples group_slice slice_rows
               k student t Ht).
    unfold bind at 1.
    rewrite (imap_ext _ (fun i student0 => (S k + i, student0)) students)
      by (intros i x _; simpl; f_equal; lia).
    apply lookup_lt_Some in Ht.
    rewrite (IH (S k)); [done|lia|simpl in Hlen; lia].
  - by rewrite (table_row_short s gp group g tuples group_slice slice_rows
                  k student Ht).
Qed.

Lemma group_table_short (students : list string) :
  length tuples < length students ->
  group_table gp group students s = (Raise IndexError, s).
Proof.
  intros Hlen. unfold group_table, enumerate.
  change (imap pair students)
    with (imap (fun i student => (0 + i, student)) students).
  apply group_table_short_from; lia.
Qed.

(** The rows of a group for a slice of any length.  With at least as many
    tuples as students the step returns one row per student and leaves
    the tuples beyond the last student unused; with fewer tuples it raises
    [IndexError], at the first student without a tuple. *)
Theorem group_table_outcome (students : list string) :
  group_table gp group students s
  = (if decide (length students <= length tuples)
     then Ok (rows_for students tuples)
     else Raise IndexError,
     s).
Proof.
  destruct (decide (length students <= length tuples)) as [Hle|Hgt].
  - by apply (group_table_run s gp group g tuples).
  - apply group_table_short. lia.
Qed.
End AssemblerBounds.

Lemma group_table_outcome_witness :
  group_table [("A", 0)]%string "A" ["X"; "Y"]%string
    (State [[["p1"]]]%string 0)
  = (if decide (length ["X"; "Y"]%string <= length [["p1"]]%string)
     then Ok (rows_for ["X"; "Y"]%string [["p1"]]%string)
     else Raise IndexError,
     State [[["p1"]]]%string 0).
Proof.
  apply (group_table_outcome (State [[["p1"]]]%string 0)
           [("A", 0)]%string "A"%string 0 [["p1"]]%string);
    reflexivity.
Defined.

(** * [make_group_tables] on inputs the parsers can give *)

Lemma slices_nil {A} (ns : list nat) :
  Forall (fun sl : list A => sl = []) (slices [] ns).
Proof.
  induction ns as [|n ns IH]; simpl; [constructor|].
  rewrite take_nil, drop_nil. by constructor.
Qed.

Section NoRows.
Variables (s : state prow) (gp : dict loc).

(** The row-assembly step when every slice is empty: it returns if no
    group has a student, and raises at the first student otherwise. *)
Lemma table_data_no_rows (groups : dict (list string)) :
  forall acc : dict (list (list cell)),
    NoDup (keys groups) ->
    (forall k, k ∈ keys groups -> k ∉ keys acc) ->
    Forall (fun item : string * list string =>
              exists g, dict_get item.1 gp = Some g /\
                        heap s !! g = Some []) groups ->
    dict_comp groups (fun group students => group_table gp group students)
      acc s
    = (if decide (sum_list (sizes groups) = 0)
       then Ok (acc ++ map (fun item => (item.1, [])) groups)
       else Raise IndexError,
       s).
Proof.
  induction groups as [|[k students] groups IH]; intros acc Hnd Hacc Hall.
  - simpl. by rewrite app_nil_r.
  - apply Forall_cons in Hall as [(g & Hg & Hsl) Hall]. simpl in Hg.
    cbn [dict_comp]. unfold bind at 1.
    simpl in Hnd. apply NoDup_cons in Hnd as [Hk Hnd].
    destruct students as [|student students].
    + rewrite (group_table_run s gp k g [] Hg Hsl []) by done.
      rewrite dict_set_fresh by (apply Hacc; simpl; by left).
      rewrite IH; [|done| |done].
      * change (sum_list (sizes ((k, []) :: groups)))
          with (sum_list (sizes groups)).
        destruct (decide (sum_list (sizes groups) = 0)); [|done].
        simpl. by rewrite <- (assoc_L (++)).
      * intros k' Hk'. rewrite keys_app. simpl.
        apply not_elem_of_app. split.
        -- apply Hacc. simpl. by right.
        -- apply not_elem_of_cons. split; [|apply not_elem_of_nil].
           intros ->. done.
    + rewrite (group_table_short s gp k g [] Hg Hsl) by (simpl; lia).
      by rewrite decide_False by done.
Qed.

Lemma slices_held (groups : dict (list string)) (sls : list (list prow)) :
  dict_wf groups -> keys gp = keys groups ->
  point_to s (values gp) sls ->
  Forall (fun sl => sl = []) sls ->
  Forall (fun item : string * list string =>
            exists g, dict_get item.1 gp = Some g /\
                      heap s !! g = Some []) groups.
Proof.
  intros Hwf Hkeys Hpt Hnil. apply Forall_lookup. intros i [k students] Hi.
  assert (keys gp !! i = Some k) as Hk
    by (rewrite Hkeys; unfold keys; by rewrite list_lookup_fmap, Hi).
  unfold keys in Hk. rewrite list_lookup_fmap in Hk.
  apply fmap_Some in Hk as ([k' g] & Hgp & Hkk). simpl in Hkk. subst k'.
  assert (values gp !! i = Some g) as Hv
    by (unfold values; by rewrite list_lookup_fmap, Hgp).
  destruct (Forall2_lookup_l _ _ _ _ _ Hpt Hv) as (sl & Hsl & Hheap).
  rewrite (proj1 (Forall_lookup _ _) Hnil i sl Hsl) in Hheap.
  exists g. split; [|done].
  apply (dict_get_lookup gp i); [|done]. unfold dict_wf. by rewrite Hkeys.
Qed.
End NoRows.

Section MakeGroupTablesErrors.
Variable shuffle_draw : nat -> list string -> list string.

(** An empty problem-set makes the whole call fail with
    [ZeroDivisionError], whatever the roster is. *)
Theorem make_group_tables_zero_division (groups : dict (list string))
    (problem_groups : list loc) (sets : list (list string))
    (s : state string) :
  point_to s problem_groups sets ->
  Exists (fun ps => ps = []) sets ->
  fst (make_group_tables shuffle_draw groups problem_groups s)
  = Raise ZeroDivisionError.
Proof.
  intros Hpt Hex. unfold make_group_tables, combine.
  destruct (assign_all_raises shuffle_draw
              (Z.of_nat (sum_list (map length (values groups))))
              problem_groups sets s Hpt Hex) as (s' & Hrun).
  unfold bind at 1. unfold bind at 1. by rewrite Hrun.
Qed.

(** Without any problem-set there are no rows to hand out.  The call
    returns an empty table for every group when no group has a student,
    and raises [IndexError], at the row of the first student, when some
    group has one. *)
Theorem make_group_tables_without_sets (groups : dict (list string))
    (s : state string) :
  dict_wf groups ->
  make_group_tables shuffle_draw groups [] s
  = (if decide (sum_list (sizes groups) = 0)
     then Ok (map (fun item => (item.1, [])) groups)
     else Raise IndexError,
     s).
Proof.
  intros Hwf. unfold make_group_tables, combine. cbn [list_comp].
  unfold bind at 1. unfold bind at 1. unfold ret at 1.
  cbn [list_comp]. unfold ret at 1. unfold bind at 1. unfold ret at 1.
  cbn [zip_star]. unfold in_row_store. f_equal.
  unfold bind at 1, new_list. simpl.
  destruct (group_problems_of_run groups (State [[]] 0) 0 [] eq_refl Hwf)
    as (gp & s' & Hgp & Hkeys & _ & _ & Hpt).
  unfold bind at 1. rewrite Hgp. unfold table_data_of.
  rewrite (table_data_no_rows s' gp groups []); [by destruct (decide _)|done|..].
  - intros k _. apply not_elem_of_nil.
  - apply (slices_held s' gp groups (slices [] (sizes groups)));
      [done..|apply slices_nil].
Qed.
End MakeGroupTablesErrors.

Lemma two_groups_wf : dict_wf two_groups.
Proof.
  unfold dict_wf. simpl. apply NoDup_ListNoDup.
  repeat constructor; simpl; intuition discriminate.
Qed.

Lemma make_group_tables_zero_division_witness :
  fst (make_group_tables flip_even two_groups [0; 1] with_empty_set)
  = Raise ZeroDivisionError.
Proof.
  apply (make_group_tables_zero_division flip_even two_groups [0; 1]
           [["p1"; "p2"]; []]%string with_empty_set).
  - by repeat constructor.
  - apply Exists_cons_tl, Exists_cons_hd. reflexivity.
Defined.

Lemma make_group_tables_without_sets_witness :
  make_group_tables flip_even two_groups [] two_problems
  = (if decide (sum_list (sizes two_groups) = 0)
     then Ok (map (fun item => (item.1, [])) two_groups)
     else Raise IndexError,
     two_problems).
Proof.
  apply (make_group_tables_without_sets flip_even two_groups two_problems).
  apply two_groups_wf.
Defined.

(** * The lists given to [make_group_tables] *)

Section Frame.
Context {T : Type}.
Variable shuffle_draw : nat -> list T -> list T.

Lemma assign_problems_frame (p : loc) (n : Z) (s : state T) (l : loc)
    (v : list T) :
  heap s !! l = Some v ->
  heap (assign_problems shuffle_draw p n s).2 !! l = Some v.
Proof.
  intros Hl. destruct (heap s !! p) as [[|x ps]|] eqn:Hp.
  - by rewrite assign_problems_empty by by rewrite Hp.
  - destruct (assign_problems_returns shuffle_draw s p (x :: ps) n Hp
                ltac:(done)) as (r & s' & -> & _ & _ & Hframe).
    by apply Hframe.
  - by rewrite assign_problems_empty by by rewrite Hp.
Qed.

Lemma assign_all_frame (pg : list loc) (n : Z) :
  forall (s : state T) (l : loc) (v : list T),
    heap s !! l = Some v ->
    heap (list_comp pg (fun p => assign_problems shuffle_draw p n) s).2 !! l
    = Some v.
Proof.
  induction pg as [|p pg IH]; intros s l v Hl; [done|].
  cbn [list_comp]. unfold bind at 1.
  pose proof (assign_problems_frame p n s l v Hl) as H1.
  destruct (assign_problems shuffle_draw p n s) as [[r|e] s1]; [|done].
  simpl in H1. unfold bind at 1.
  pose proof (IH s1 l v H1) as H2.
  by destruct (list_comp pg _ s1) as [[rs|e] s2].
Qed.

Lemma list_comp_deref (locs : list loc) (s : state T) :
  list_comp locs deref s
  = (Ok (map (fun l => default [] (heap s !! l)) locs), s).
Proof.
  induction locs as [|l locs IH]; [done|].
  cbn [list_comp]. unfold bind at 1, deref at 1.
  unfold bind at 1. by rewrite IH.
Qed.

Lemma combine_frame (pg : list loc) (n : Z) (s : state T) (l : loc)
    (v : list T) :
  heap s !! l = Some v ->
  heap (combine shuffle_draw pg n s).2 !! l = Some v.
Proof.
  intros Hl. unfold combine, bind at 1.
  pose proof (assign_all_frame pg n s l v Hl) as H1.
  destruct (list_comp pg _ s) as [[rs|e] s1]; [|done].
  unfold bind at 1. by rewrite list_comp_deref.
Qed.
End Frame.

(** [make_group_tables] changes none of the lists it is given: whatever
    the roster and the problem-sets are, and whether the call returns or
    raises, every list that was there before the call has the same
    contents after it. *)
Theorem make_group_tables_keeps_lists
    (shuffle_draw : nat -> list string -> list string)
    (groups : dict (list string)) (problem_groups : list loc)
    (s : state string) (l : loc) (v : list string) :
  heap s !! l = Some v ->
  heap (make_group_tables shuffle_draw groups problem_groups s).2 !! l
  = Some v.
Proof.
  intros Hl. unfold make_group_tables, bind at 1.
  pose proof (combine_frame shuffle_draw problem_groups
                (Z.of_nat (sum_list (map length (values groups)))) s l v Hl)
    as H1.
  by destruct (combine shuffle_draw problem_groups _ s) as [[rows|e] s1].
Qed.

Lemma make_group_tables_keeps_lists_witness :
  heap (make_group_tables flip_even two_groups [0] two_problems).2 !! 0
  = Some ["p1"; "p2"]%string.
Proof.
  apply (make_group_tables_keeps_lists flip_even two_groups [0]
           two_problems 0 ["p1"; "p2"]%string).
  reflexivity.
Defined.

(** * Fair shares in the tables *)

Section Shares.
Context {T : Type} `{EqDecision T}.
Variable shuffle_draw : nat -> list T -> list T.
Hypothesis shuffle_perm : forall g v, shuffle_draw g v ≡ₚ v.

(** The share of a problem in one allocation. *)
Lemma allocation_occurrences (total : Z) (ps col : list T) (x : T) :
  ps <> [] -> (0 <= total)%Z ->
  allocation_of shuffle_draw total ps col ->
  (Z.of_nat (occurrences x ps) * (total / Z.of_nat (length ps))
   <= Z.of_nat (occurrences x col)
   <= Z.of_nat (occurrences x ps)
      * ceil_quot total (Z.of_nat (length ps)))%Z.
Proof.
  intros Hne Ht [g ->]. rewrite py_slice_prefix by done.
  set (bs := blocks_from shuffle_draw g (block_count ps total) ps).
  assert (shuffled ps bs) as Hbs by by apply blocks_from_shuffled.
  assert (0 < Z.of_nat (length ps))%Z as Hk
    by (destruct ps; simpl; [done|lia]).
  pose proof (ceil_quot_bounds total _ Hk) as Hce.
  pose proof (ceil_quot_nonneg total _ Hk Ht) as Hce0.
  pose proof (Z.mul_div_le total _ Hk) as Hfl.
  pose proof (Z.div_pos total _ Ht Hk) as Hfl0.
  assert (length bs = block_count ps total) as Hlen
    by apply length_blocks_from.
  pose proof (occurrences_prefix_lower ps x bs Hbs (Z.to_nat total)
                (Z.to_nat (total / Z.of_nat (length ps)))) as Hlo.
  pose proof (occurrences_prefix_upper ps x bs Hbs (Z.to_nat total)
                (block_count ps total)) as Hhi.
  unfold block_count in *. split.
  - assert (Z.to_nat (total / Z.of_nat (length ps)) * length ps
            <= Z.to_nat total) as H1 by nia.
    assert (Z.to_nat total <= length bs * length ps) as H2
      by (rewrite Hlen; nia).
    specialize (Hlo H1 H2). nia.
  - assert (Z.to_nat total
            <= Z.to_nat (ceil_quot total (Z.of_nat (length ps)))
               * length ps) as H1 by nia.
    specialize (Hhi H1). nia.
Qed.
End Shares.

Lemma occurrences_CStr (x : string) (col : list string) :
  occurrences (CStr x) (map CStr col) = occurrences x col.
Proof.
  unfold occurrences. induction col as [|a col IH]; [done|].
  simpl. rewrite IH.
  destruct (decide (a = x)) as [->|Hne].
  - by rewrite decide_True.
  - rewrite decide_False; [done|]. by intros [= ->].
Qed.

Section Columns.
Context {A B : Type}.
Variables (f : A -> B) (j : nat).

Lemma omap_head_zip_with (c : list A) :
  forall rest : list (list A),
    length c = length rest ->
    omap (fun t : list A => f <$> t !! 0) (zip_with cons c rest) = map f c.
Proof.
  induction c as [|x c IH]; intros [|r rest] Hlen; try done.
  simpl. f_equal. apply IH. simpl in Hlen. lia.
Qed.

Lemma omap_tail_zip_with (c : list A) :
  forall rest : list (list A),
    length c = length rest ->
    omap (fun t : list A => f <$> t !! S j) (zip_with cons c rest)
    = omap (fun t : list A => f <$> t !! j) rest.
Proof.
  induction c as [|x c IH]; intros [|r rest] Hlen; try done.
  simpl. rewrite IH by (simpl in Hlen; lia). done.
Qed.
End Columns.

(** Column [j] of the transposed lists is the list at [j]. *)
Lemma omap_zip_star {A B} (f : A -> B) (n : nat) (cols : list (list A)) :
  Forall (fun col => length col = n) cols ->
  forall (j : nat) (col : list A),
    cols !! j = Some col ->
    omap (fun t : list A => f <$> t !! j) (zip_star cols) = map f col.
Proof.
  induction cols as [|c cs IH]; intros Hall j col Hj; [done|].
  apply Forall_cons in Hall as [Hc Hcs].
  destruct cs as [|c' cs].
  - destruct j as [|j]; [|done]. simpl in Hj. injection Hj as ->.
    cbn [zip_star]. clear. induction col as [|x col IH]; [done|].
    simpl. f_equal. exact IH.
  - change (zip_star (c :: c' :: cs))
      with (zip_with cons c (zip_star (c' :: cs))).
    assert (length c = length (zip_star (c' :: cs))) as Hlen
      by (rewrite (length_zip_star _ n); done).
    destruct j as [|j].
    + simpl in Hj. injection Hj as ->. by apply omap_head_zip_with.
    + rewrite omap_tail_zip_with by done. by apply IH.
Qed.

Section HandedOut.
Variable j : nat.

Lemma omap_rows (l : list (string * prow)) :
  forall g : nat -> string * prow -> list cell,
    (forall i p, g i p !! S (S j) = CStr <$> p.2 !! j) ->
    omap (fun row : list cell => row !! S (S j)) (imap g l)
    = omap (fun p : string * prow => CStr <$> p.2 !! j) l.
Proof.
  induction l as [|p l IH]; intros g Hg; [done|].
  simpl. rewrite Hg.
  destruct (CStr <$> p.2 !! j); [f_equal|];
    apply (IH (g ∘ S)); intros i q; apply Hg.
Qed.

Lemma omap_zip_tuples (students : list string) :
  forall sl : list prow,
    length sl = length students ->
    omap (fun p : string * prow => CStr <$> p.2 !! j) (zip students sl)
    = omap (fun t : prow => CStr <$> t !! j) sl.
Proof.
  induction students as [|st students IH]; intros [|t sl] Hlen; try done.
  simpl. destruct (CStr <$> t !! j); [f_equal|];
    apply IH; simpl in Hlen; lia.
Qed.

Lemma omap_rows_for (students : list string) (sl : list prow) :
  length sl = length students ->
  omap (fun row : list cell => row !! S (S j)) (rows_for students sl)
  = omap (fun t : prow => CStr <$> t !! j) sl.
Proof.
  intros Hlen. unfold rows_for.
  rewrite omap_rows; [by apply omap_zip_tuples|].
  intros i [st t]. simpl. by rewrite list_lookup_fmap.
Qed.

(** The cells of problem-set [j] in the tables are the entries at [j] of
    the combined rows, in the order of the rows. *)
Lemma handed_out_tables_of (groups : dict (list string)) :
  forall combined : list prow,
    sum_list (sizes groups) = length combined ->
    handed_out j (tables_of groups combined)
    = omap (fun t : prow => CStr <$> t !! j) combined.
Proof.
  unfold handed_out. change (2 + j) with (S (S j)).
  induction groups as [|[k students] groups IH]; intros combined Hsum.
  - simpl in *. by destruct combined.
  - unfold sizes, values in Hsum. simpl in Hsum.
    change (tables_of ((k, students) :: groups) combined)
      with ((k, rows_for students (take (length students) combined))
              :: tables_of groups (drop (length students) combined)).
    unfold values in *. cbn [map concat snd]. rewrite omap_app.
    rewrite omap_rows_for by (rewrite length_take; lia).
    rewrite IH by (rewrite length_drop; unfold sizes, values; lia).
    rewrite <- omap_app. by rewrite take_drop.
Qed.
End HandedOut.

Section Fairness.
Variable shuffle_draw : nat -> list string -> list string.
Hypothesis shuffle_perm : forall g v, shuffle_draw g v ≡ₚ v.

(** The shares in the tables.  Over the students of all groups together,
    the tables hand out one problem of each problem-set per student, and
    a problem that stands [m] times in its problem-set is handed out at
    least [m * floor(total / k)] and at most [m * ceil(total / k)] times,
    [total] being the number of students and [k] the length of the
    problem-set; a problem of a problem-set without repetition gets
    [floor(total / k)] or [ceil(total / k)] students. *)
Theorem make_group_tables_shares (groups : dict (list string))
    (problem_groups : list loc) (sets : list (list string))
    (s : state string) (j : nat) (ps : list string) (x : string) :
  dict_wf groups -> point_to s problem_groups sets ->
  Forall (fun ps => ps <> []) sets ->
  sets !! j = Some ps ->
  exists tables s',
    make_group_tables shuffle_draw groups problem_groups s
    = (Ok tables, s') /\
    let total := Z.of_nat (sum_list (sizes groups)) in
    let k := Z.of_nat (length ps) in
    let m := Z.of_nat (occurrences x ps) in
    let n := Z.of_nat (occurrences (CStr x) (handed_out j tables)) in
    Z.of_nat (length (handed_out j tables)) = total /\
    (m * (total / k) <= n <= m * ceil_quot total k)%Z /\
    (NoDup ps -> x ∈ ps -> (total / k <= n <= ceil_quot total k)%Z).
Proof.
  intros Hwf Hpt Hne Hj.
  assert (sets <> []) as Hsets by (intros ->; done).
  destruct (make_group_tables_run shuffle_draw shuffle_perm groups
              problem_groups sets s Hwf Hpt Hsets Hne)
    as (cols & s' & Hrun & Hcols & Hlen).
  destruct (Forall2_lookup_l _ _ _ _ _ Hcols Hj) as (col & Hcol & Halloc).
  assert (cols <> []) as Hcols' by (intros ->; done).
  assert (handed_out j (tables_of groups (zip_star cols)) = map CStr col)
    as Hout.
  { rewrite handed_out_tables_of
      by (symmetry; by apply length_zip_star).
    by apply (omap_zip_star CStr (sum_list (sizes groups))). }
  exists (tables_of groups (zip_star cols)), s'. split; [done|].
  rewrite Hout, occurrences_CStr, length_map. simpl.
  pose proof (proj1 (Forall_lookup _ _) Hne j ps Hj) as Hps.
  pose proof (proj1 (Forall_lookup _ _) Hlen j col Hcol) as Hn.
  pose proof (allocation_occurrences shuffle_draw shuffle_perm
                (Z.of_nat (sum_list (sizes groups))) ps col x Hps
                ltac:(lia) Halloc) as Hshare.
  split; [by rewrite Hn|]. split; [done|].
  intros Hnd Hin. rewrite (occurrences_NoDup x ps Hnd Hin) in Hshare. lia.
Qed.
End Fairness.

Lemma make_group_tables_shares_witness :
  exists tables s',
    make_group_tables flip_even two_groups [0] two_problems
    = (Ok tables, s') /\
    let total := Z.of_nat (sum_list (sizes two_groups)) in
    let k := Z.of_nat (length ["p1"; "p2"]%string) in
    let m := Z.of_nat (occurrences "p1"%string ["p1"; "p2"]%string) in
    let n := Z.of_nat (occurrences (CStr "p1") (handed_out 0 tables)) in
    Z.of_nat (length (handed_out 0 tables)) = total /\
    (m * (total / k) <= n <= m * ceil_quot total k)%Z /\
    (NoDup ["p1"; "p2"]%string -> "p1"%string ∈ ["p1"; "p2"]%string ->
     (total / k <= n <= ceil_quot total k)%Z).
Proof.
  apply (make_group_tables_shares flip_even flip_even_perm two_groups [0]
           [["p1"; "p2"]]%string two_problems 0 ["p1"; "p2"]%string
           "p1"%string).
  - apply two_groups_wf.
  - by repeat constructor.
  - by repeat constructor.
  - reflexivity.
Defined.
